(** * The streaming chat client: stream decoder, accumulator, conversation store

    A shallow embedding of the client-side core of the repository:

    - [APIService.streamMessage] (frontend API service): the reader loop that
      turns the chunks of a response body into [onChunk] / [onComplete] /
      [onError] callbacks;
    - [ChatPage] (frontend/pages.js): the per-master conversation store
      ([getCurrentMessages], [addMessageToConversation], [clearConversation],
      [loadConversations], [saveConversations]) and [sendMessage], whose
      closures accumulate the streamed text and commit it;
    - the "clear all conversations" handler of [SettingsPage.render].

    JavaScript strings are sequences of UTF-16 code units, arrays are
    mutable objects reached through references, and the built-ins
    [TextDecoder] and [JSON.parse] belong to the platform: the first two are
    modelled explicitly (code-unit lists, a heap of arrays), the last two
    are the fields of a [Platform] class, of which a concrete instance
    (a UTF-8 decoder and a parser for a fragment of JSON) is given at the
    end of the definitions. *)

From stdpp Require Import gmap list strings.
From Stdlib Require Import NArith QArith.
From Stdlib.Strings Require Import Ascii Byte.

Close Scope Q_scope.

Set Default Proof Using "Type".
Set Warnings "-register-all".

(** ** JavaScript strings *)

(** A string value is its sequence of UTF-16 code units. *)
Abbreviation jsstring := (list N).

(** A string literal of the source, all of whose characters are ASCII. *)
Fixpoint lit (s : string) : jsstring :=
  match s with
  | EmptyString => []
  | String a s' => N_of_ascii a :: lit s'
  end.

(** The code units [String.prototype.trim] strips: ECMAScript's WhiteSpace
    and LineTerminator productions. *)
Definition is_white_space (c : N) : bool :=
  (c =? 0x09)%N || (c =? 0x0A)%N || (c =? 0x0B)%N || (c =? 0x0C)%N ||
  (c =? 0x0D)%N || (c =? 0x20)%N || (c =? 0xA0)%N || (c =? 0x1680)%N ||
  ((0x2000 <=? c)%N && (c <=? 0x200A)%N) ||
  (c =? 0x2028)%N || (c =? 0x2029)%N || (c =? 0x202F)%N ||
  (c =? 0x205F)%N || (c =? 0x3000)%N || (c =? 0xFEFF)%N.

Fixpoint trimStart (s : jsstring) : jsstring :=
  match s with
  | [] => []
  | c :: s' => if is_white_space c then trimStart s' else s
  end.

Definition trimEnd (s : jsstring) : jsstring := rev (trimStart (rev s)).

(** [s.trim()] *)
Definition trim (s : jsstring) : jsstring := trimEnd (trimStart s).

(** [s.startsWith(p)] *)
Fixpoint startsWith (s p : jsstring) {struct p} : bool :=
  match p, s with
  | [], _ => true
  | _ :: _, [] => false
  | a :: p', b :: s' => (a =? b)%N && startsWith s' p'
  end.

(** [s.slice(n)] for a non-negative [n]. *)
Definition slice (n : nat) (s : jsstring) : jsstring := drop n s.

(** [s === t] on strings. *)
Definition str_eqb (s t : jsstring) : bool := bool_decide (s = t).

(** Truthiness of a string: the empty string is the only falsy one. *)
Definition str_truthy (s : jsstring) : bool :=
  match s with [] => false | _ :: _ => true end.

(** [s.split(sep)] for a one-code-unit separator: never an empty array. *)
Fixpoint split (sep : N) (s : jsstring) : list jsstring :=
  match s with
  | [] => [[]]
  | c :: s' =>
      if (c =? sep)%N then [] :: split sep s'
      else match split sep s' with
           | [] => [[c]]
           | l :: ls => (c :: l) :: ls
           end
  end.

(** [lines.pop()]: the array without its last element, and that element
    ([undefined], here [None], on an empty array). *)
Definition pop {A} (l : list A) : list A * option A :=
  (removelast l, last l).

Definition LF : N := 0x0A%N.

(** ** JSON values and the property accesses of the source *)

(** What [JSON.parse] returns. A number is carried as the string
    [Number.prototype.toString] gives for it: the source only ever tests a
    number for truthiness and concatenates it to a string, and both are
    functions of that rendering. An object is the list of its own
    properties, one entry per name. *)
Inductive JSON :=
  | JNull
  | JBool (b : bool)
  | JNum (rendering : jsstring)
  | JStr (s : jsstring)
  | JArr (xs : list JSON)
  | JObj (fields : list (jsstring * JSON)).

(** A JavaScript value as the source meets them: [undefined] is [None]. *)
Abbreviation jsvalue := (option JSON).

(** Completion of an evaluation that may throw. *)
Inductive completion (A : Type) :=
  | Normal (a : A)
  | Throw.
Arguments Normal {A} a.
Arguments Throw {A}.

Fixpoint assoc (k : jsstring) (fields : list (jsstring * JSON)) : jsvalue :=
  match fields with
  | [] => None
  | (k', v) :: fields' => if str_eqb k' k then Some v else assoc k fields'
  end.

(** [v.k] for [k] one of the names [result], [delta], [content], which
    neither the primitive wrappers nor [Array.prototype] nor
    [Object.prototype] define: a TypeError on [undefined] and [null],
    the own property on an object, [undefined] otherwise. *)
Definition get (v : jsvalue) (k : jsstring) : completion jsvalue :=
  match v with
  | None | Some JNull => Throw
  | Some (JObj fields) => Normal (assoc k fields)
  | Some _ => Normal None
  end.

(** [v?.k]: [undefined] when [v] is [undefined] or [null]. *)
Definition get_opt (v : jsvalue) (k : jsstring) : jsvalue :=
  match v with
  | Some (JObj fields) => assoc k fields
  | _ => None
  end.

(** [json.result?.delta?.content] *)
Definition result_delta_content (json : JSON) : completion jsvalue :=
  match get (Some json) (lit "result") with
  | Throw => Throw
  | Normal r => Normal (get_opt (get_opt r (lit "delta")) (lit "content"))
  end.

(** ToBoolean *)
Definition truthy (v : jsvalue) : bool :=
  match v with
  | None | Some JNull => false
  | Some (JBool b) => b
  | Some (JNum r) => negb (str_eqb r (lit "0") || str_eqb r (lit "NaN"))
  | Some (JStr s) => str_truthy s
  | Some (JArr _) | Some (JObj _) => true
  end.

(** ToString, as string concatenation applies it to its right operand. *)
Fixpoint ToString (v : JSON) : jsstring :=
  match v with
  | JNull => lit "null"
  | JBool true => lit "true"
  | JBool false => lit "false"
  | JNum r => r
  | JStr s => s
  | JArr xs =>
      (fix join (l : list JSON) : jsstring :=
         match l with
         | [] => []
         | x :: l' =>
             match x with JNull => [] | _ => ToString x end ++
             match l' with [] => [] | _ :: _ => lit "," ++ join l' end
         end) xs
  | JObj _ => lit "[object Object]"
  end.

(** ** The platform *)

(** [new TextDecoder()] used with [{stream: true}] consumes its input one
    byte at a time and keeps its state between calls; [JSON.parse] either
    returns a value or throws a SyntaxError ([None]). *)
Class Platform := {
  decoder_state : Type;
  decoder_init : decoder_state;
  decode_byte : decoder_state → byte → decoder_state * jsstring;
  JSON_parse : jsstring → option JSON;
}.

(** ** APIService.streamMessage *)

(** The calls the function makes on its environment. [OnChunk] carries
    the value of [json.result.delta.content]; [ConsoleError] is a
    [console.error]. *)
Inductive callback :=
  | OnChunk (content : JSON)
  | OnComplete
  | OnError (message : jsstring)
  | ConsoleError.

Section api.
Context `{Platform}.

(** [decoder.decode(value, {stream: true})] *)
Fixpoint TextDecoder_decode (d : decoder_state) (value : list byte)
  : decoder_state * jsstring :=
  match value with
  | [] => (d, [])
  | b :: value' =>
      let '(d1, t1) := decode_byte d b in
      let '(d2, t2) := TextDecoder_decode d1 value' in
      (d2, t1 ++ t2)
  end.

(** The body of [for (const line of lines)] for one line: the calls made,
    and whether the function returned. *)
Definition handle_line (line : jsstring) : list callback * bool :=
  if str_truthy (trim line) && startsWith line (lit "data: ") then
    let data := trim (slice 6 line) in
    if str_eqb data (lit "[DONE]") then ([OnComplete], true)
    else
      match JSON_parse data with
      | None => ([ConsoleError], false)
      | Some json =>
          match result_delta_content json with
          | Throw => ([ConsoleError], false)
          | Normal (Some c) =>
              if truthy (Some c) then ([OnChunk c], false) else ([], false)
          | Normal None => ([], false)
          end
      end
  else ([], false).

Fixpoint for_lines (lines : list jsstring) : list callback * bool :=
  match lines with
  | [] => ([], false)
  | line :: lines' =>
      let '(cs, returned) := handle_line line in
      if returned then (cs, true)
      else let '(cs', returned') := for_lines lines' in
           (cs ++ cs', returned')
  end.

(** The local variables that live across the iterations of
    [while (true)]. *)
Record reader_loop := ReaderLoop {
  decoder : decoder_state;
  buffer : jsstring;
}.

(** State on entry to the loop: [new TextDecoder()], [buffer = '']. *)
Definition loop_init : reader_loop :=
  {| decoder := decoder_init; buffer := [] |}.

(** One iteration in which [reader.read()] resolves to
    [{done: false, value}]: the calls made and the loop state carried to
    the next iteration, [None] once the function has returned. *)
Definition read_value (l : reader_loop) (value : list byte)
  : list callback * option reader_loop :=
  let '(d, text) := TextDecoder_decode (decoder l) value in
  let '(lines, remainder) := pop (split LF (buffer l ++ text)) in
  let '(cs, returned) := for_lines lines in
  (cs, if returned then None
       else Some {| decoder := d; buffer := default [] remainder |}).

(** The iteration in which [reader.read()] resolves to [{done: true}]. *)
Definition read_done (l : reader_loop) : list callback * option reader_loop :=
  ([OnComplete], None).

(** A rejected [fetch] or [reader.read()], or a response that is not
    [ok]: the [catch] clause of the function. *)
Definition read_failed (message : jsstring)
  : list callback * option reader_loop :=
  ([ConsoleError; OnError message], None).

(** How the response body ends. *)
Inductive body_end :=
  | Closed
  | Failed (message : jsstring).

(** The whole loop over a body that delivers [values] and then ends. *)
Fixpoint read_all (l : reader_loop) (values : list (list byte))
  (e : body_end) : list callback :=
  match values with
  | [] => match e with
          | Closed => (read_done l).1
          | Failed m => (read_failed m).1
          end
  | value :: values' =>
      let '(cs, next) := read_value l value in
      match next with
      | None => cs
      | Some l' => cs ++ read_all l' values' e
      end
  end.

(** [streamMessage] on a response that is [ok]. *)
Definition streamMessage (values : list (list byte)) (e : body_end)
  : list callback :=
  read_all loop_init values e.

End api.

(** ** ChatPage: the conversation store and the chat turn *)

(** [{ role, content }] *)
Record Message := { role : jsstring; content : jsstring }.

#[global] Instance Message_eq_dec : EqDecision Message.
Proof. solve_decision. Defined.

(** The ids of the [MASTERS] table. *)
Definition MASTERS : list jsstring := [lit "tocqueville"].

(** The notifications the page raises. *)
Inductive toast :=
  | Warning_wait_for_current_message
  | Success_switched (masterId : jsstring)
  | Error_send_failed (message : jsstring)
  | Success_conversation_cleared
  | Success_all_cleared.

(** The body [streamMessage] posts: serialised when the call is made. *)
Record request := {
  character : jsstring;
  messages : list Message;
  stream : bool;
  temperature : Q;
}.

Section page.
Context `{Platform}.

(** The activation of [sendMessage] that is waiting on
    [api.streamMessage]: its local [fullResponse], the request posted and
    the state of the reader loop. The loop state is the initial one from
    the moment of the call: nothing observable separates the call from
    the arrival of an [ok] response. *)
Record turn := {
  fullResponse : jsstring;
  posted : request;
  loop : reader_loop;
}.

(** The page and what it shares with its environment. Arrays are objects:
    [heap] holds them, a reference is an index into it, and
    [conversations] maps a master id to the reference of its array. The
    ids are keys of the [MASTERS] table or of the stored item, none of them
    a name that [Object.prototype] defines, so that a property of
    [conversations] is an own property. [masterConversations] is the
    [localStorage] item of that name, held as the value its JSON text
    denotes. *)
Record state := {
  heap : list (list Message);
  masterConversations : option (gmap jsstring (list Message));
  currentMaster : jsstring;
  conversations : gmap jsstring nat;
  isStreaming : bool;
  pending : option turn;
  toasts : list toast;
}.

Definition set_heap (f : list (list Message) → list (list Message))
  (s : state) : state :=
  {| heap := f (heap s); masterConversations := masterConversations s;
     currentMaster := currentMaster s; conversations := conversations s;
     isStreaming := isStreaming s; pending := pending s;
     toasts := toasts s |}.

Definition set_masterConversations
  (v : option (gmap jsstring (list Message))) (s : state) : state :=
  {| heap := heap s; masterConversations := v;
     currentMaster := currentMaster s; conversations := conversations s;
     isStreaming := isStreaming s; pending := pending s;
     toasts := toasts s |}.

Definition set_currentMaster (m : jsstring) (s : state) : state :=
  {| heap := heap s; masterConversations := masterConversations s;
     currentMaster := m; conversations := conversations s;
     isStreaming := isStreaming s; pending := pending s;
     toasts := toasts s |}.

Definition set_conversations (f : gmap jsstring nat → gmap jsstring nat)
  (s : state) : state :=
  {| heap := heap s; masterConversations := masterConversations s;
     currentMaster := currentMaster s; conversations := f (conversations s);
     isStreaming := isStreaming s; pending := pending s;
     toasts := toasts s |}.

Definition set_isStreaming (b : bool) (s : state) : state :=
  {| heap := heap s; masterConversations := masterConversations s;
     currentMaster := currentMaster s; conversations := conversations s;
     isStreaming := b; pending := pending s; toasts := toasts s |}.

Definition set_pending (p : option turn) (s : state) : state :=
  {| heap := heap s; masterConversations := masterConversations s;
     currentMaster := currentMaster s; conversations := conversations s;
     isStreaming := isStreaming s; pending := p; toasts := toasts s |}.

Definition show_toast (t : toast) (s : state) : state :=
  {| heap := heap s; masterConversations := masterConversations s;
     currentMaster := currentMaster s; conversations := conversations s;
     isStreaming := isStreaming s; pending := pending s;
     toasts := toasts s ++ [t] |}.

(** The elements of the array a reference points to. *)
Definition deref (s : state) (r : nat) : list Message :=
  default [] (heap s !! r).

(** An array literal: a new object. *)
Definition alloc (a : list Message) (s : state) : state * nat :=
  (set_heap (λ h, h ++ [a]) s, length (heap s)).

(** [saveConversations]: [JSON.stringify(this.conversations)] written to
    [localStorage] ([setItem] is taken to succeed). *)
Definition saveConversations (s : state) : state :=
  set_masterConversations (Some (deref s <$> conversations s)) s.

(** [getCurrentMessages]: the array of the current master itself, or a new
    empty array when the property is missing. *)
Definition getCurrentMessages (s : state) : state * nat :=
  match conversations s !! currentMaster s with
  | Some r => (s, r)
  | None => alloc [] s
  end.

(** [addMessageToConversation(role, content)] *)
Definition addMessageToConversation (role content : jsstring) (s : state)
  : state :=
  let s1 :=
    match conversations s !! currentMaster s with
    | Some _ => s
    | None =>
        let '(s', r) := alloc [] s in
        set_conversations <[currentMaster s := r]> s'
    end in
  let s2 :=
    match conversations s1 !! currentMaster s1 with
    | Some r =>
        set_heap (alter (λ a, a ++ [{| role := role; content := content |}]) r)
                 s1
    | None => s1
    end in
  saveConversations s2.

(** [clearConversation], the dialog being confirmed. The message of the
    dialog reads [MASTERS[this.currentMaster].name], a TypeError for an id
    that is not in the table: the dialog is then never shown. *)
Definition clearConversation (s : state) : state * completion () :=
  if bool_decide (currentMaster s ∈ MASTERS) then
    let '(s1, r) := alloc [] s in
    let s2 := set_conversations <[currentMaster s := r]> s1 in
    let s3 := saveConversations s2 in
    (show_toast Success_conversation_cleared s3, Normal ())
  else (s, Throw).

(** [switchMaster(masterId)]; rendering is not modelled, but for the
    TypeError it raises on an id that is not in the table. *)
Definition switchMaster (masterId : jsstring) (s : state)
  : state * completion () :=
  if isStreaming s then (show_toast Warning_wait_for_current_message s, Normal ())
  else
    let s1 := set_currentMaster masterId s in
    if bool_decide (masterId ∈ MASTERS)
    then (show_toast (Success_switched masterId) s1, Normal ())
    else (s1, Throw).

(** The handler of the "clear all conversations" button of
    [SettingsPage], the dialog being confirmed. *)
Definition clearAllConversations (s : state) : state :=
  show_toast Success_all_cleared (set_masterConversations None s).

(** [JSON.parse(saved)] on the stored item: every array is a new object. *)
Definition parse_conversations (saved : gmap jsstring (list Message))
  (h : list (list Message)) : list (list Message) * gmap jsstring nat :=
  foldr (λ '(k, a) '(h', c), (h' ++ [a], <[k := length h']> c))
        (h, ∅) (map_to_list saved).

(** [loadConversations] *)
Definition loadConversations (s : state) : state :=
  let s1 :=
    match masterConversations s with
    | Some saved =>
        let '(h, c) := parse_conversations saved (heap s) in
        set_conversations (λ _, c) (set_heap (λ _, h) s)
    | None => s
    end in
  match conversations s1 !! currentMaster s1 with
  | Some _ => s1
  | None =>
      let '(s', r) := alloc [] s1 in
      set_conversations <[currentMaster s1 := r]> s'
  end.

(** [new ChatPage()] in a page that has just been loaded, given the
    stored item (the [userId] is not modelled). *)
Definition ChatPage_new (saved : option (gmap jsstring (list Message)))
  : state :=
  loadConversations
    {| heap := []; masterConversations := saved;
       currentMaster := lit "tocqueville"; conversations := ∅;
       isStreaming := false; pending := None; toasts := [] |}.

(** [sendMessage], up to its first [await], on the text of the input
    field. [MASTERS[this.currentMaster].avatar] is a TypeError for an id
    that is not in the table, raised before [api.streamMessage] is
    called. *)
Definition sendMessage (input_value : jsstring) (s : state)
  : state * completion () :=
  let content := trim input_value in
  if negb (str_truthy content) || isStreaming s then (s, Normal ())
  else
    let s1 := addMessageToConversation (lit "user") content s in
    let s2 := set_isStreaming true s1 in
    if bool_decide (currentMaster s2 ∈ MASTERS) then
      let '(s3, r) := getCurrentMessages s2 in
      (set_pending
         (Some {| fullResponse := [];
                  posted := {| character := currentMaster s3;
                               messages := deref s3 r;
                               stream := true;
                               temperature := (1 # 2)%Q |};
                  loop := loop_init |}) s3,
       Normal ())
    else (s2, Throw).

(** The three closures [sendMessage] passes to [api.streamMessage], and
    [console.error]. *)
Definition deliver (s : state) (c : callback) : state :=
  match c with
  | OnChunk v =>
      set_pending
        ((λ t, {| fullResponse := fullResponse t ++ ToString v;
                  posted := posted t; loop := loop t |}) <$> pending s) s
  | OnComplete =>
      match pending s with
      | Some t =>
          set_isStreaming false
            (addMessageToConversation (lit "assistant") (fullResponse t) s)
      | None => s
      end
  | OnError m => show_toast (Error_send_failed m) (set_isStreaming false s)
  | ConsoleError => s
  end.

(** One iteration of the reader loop of the pending call, its callbacks
    delivered in order. *)
Definition resume (s : state)
  (iteration : reader_loop → list callback * option reader_loop) : state :=
  match pending s with
  | None => s
  | Some t =>
      let '(cs, next) := iteration (loop t) in
      let s' := foldl deliver s cs in
      set_pending
        (match next with
         | None => None
         | Some l =>
             (λ t', {| fullResponse := fullResponse t'; posted := posted t';
                       loop := l |}) <$> pending s'
         end) s'
  end.

(** What can happen to the page. *)
Inductive event :=
  | Send (input_value : jsstring)
  | Switch (masterId : jsstring)
  | ClearCurrent
  | ClearAll
  | Read (value : list byte)
  | ReadDone
  | ReadFailed (message : jsstring)
  | Reload.

Definition step (s : state) (e : event) : state :=
  match e with
  | Send v => (sendMessage v s).1
  | Switch m => (switchMaster m s).1
  | ClearCurrent => (clearConversation s).1
  | ClearAll => clearAllConversations s
  | Read value => resume s (λ l, read_value l value)
  | ReadDone => resume s read_done
  | ReadFailed m => resume s (λ _, read_failed m)
  | Reload => ChatPage_new (masterConversations s)
  end.

Definition run (s : state) (es : list event) : state := foldl step s es.

(** The history of a master: the elements of the array
    [this.conversations[P]], none when the property is missing. *)
Definition history (s : state) (P : jsstring) : list Message :=
  match conversations s !! P with
  | Some r => deref s r
  | None => []
  end.

(** Every reference of [conversations] points into the heap, and no two
    masters share an array. *)
Definition wf (s : state) : Prop :=
  (∀ P r, conversations s !! P = Some r → r < length (heap s)) ∧
  (∀ P P' r, conversations s !! P = Some r → conversations s !! P' = Some r →
             P = P').

End page.

(** ** A platform *)

(** The UTF-8 decoder of the Encoding Standard, which [new TextDecoder()]
    selects, in its streaming use (errors are replaced by U+FFFD, a leading
    byte order mark is dropped), and a parser for a fragment of JSON. *)
Module Browser.

Record utf8_state := {
  code_point : N;
  bytes_seen : N;
  bytes_needed : N;
  lower_boundary : N;
  upper_boundary : N;
  BOM_seen : bool;
}.

Definition utf8_init : utf8_state :=
  {| code_point := 0; bytes_seen := 0; bytes_needed := 0;
     lower_boundary := 0x80; upper_boundary := 0xBF; BOM_seen := false |}.

Definition utf8_reset (st : utf8_state) : utf8_state :=
  {| code_point := 0; bytes_seen := 0; bytes_needed := 0;
     lower_boundary := 0x80; upper_boundary := 0xBF;
     BOM_seen := BOM_seen st |}.

Definition between (lo hi b : N) : bool := ((lo <=? b) && (b <=? hi))%N.

(** The handler on a byte when no bytes are needed: the scalar values
    produced, an error being U+FFFD. *)
Definition utf8_lead (st : utf8_state) (b : N) : utf8_state * list N :=
  if between 0x00 0x7F b then (st, [b])
  else if between 0xC2 0xDF b then
    ({| code_point := N.land b 0x1F; bytes_seen := 0; bytes_needed := 1;
        lower_boundary := 0x80; upper_boundary := 0xBF;
        BOM_seen := BOM_seen st |}, [])
  else if between 0xE0 0xEF b then
    ({| code_point := N.land b 0xF; bytes_seen := 0; bytes_needed := 2;
        lower_boundary := if (b =? 0xE0)%N then 0xA0 else 0x80;
        upper_boundary := if (b =? 0xED)%N then 0x9F else 0xBF;
        BOM_seen := BOM_seen st |}, [])
  else if between 0xF0 0xF4 b then
    ({| code_point := N.land b 0x7; bytes_seen := 0; bytes_needed := 3;
        lower_boundary := if (b =? 0xF0)%N then 0x90 else 0x80;
        upper_boundary := if (b =? 0xF4)%N then 0x8F else 0xBF;
        BOM_seen := BOM_seen st |}, [])
  else (st, [0xFFFD%N]).

Definition utf8_handler (st : utf8_state) (b : N) : utf8_state * list N :=
  if (bytes_needed st =? 0)%N then utf8_lead st b
  else if negb (between (lower_boundary st) (upper_boundary st) b) then
    let '(st', out) := utf8_lead (utf8_reset st) b in
    (st', 0xFFFD%N :: out)
  else
    let cp := N.lor (N.shiftl (code_point st) 6) (N.land b 0x3F) in
    let seen := (bytes_seen st + 1)%N in
    if (seen =? bytes_needed st)%N then (utf8_reset st, [cp])
    else
      ({| code_point := cp; bytes_seen := seen;
          bytes_needed := bytes_needed st;
          lower_boundary := 0x80; upper_boundary := 0xBF;
          BOM_seen := BOM_seen st |}, []).

(** The code units of a scalar value. *)
Definition utf16 (cp : N) : jsstring :=
  if (cp <? 0x10000)%N then [cp]
  else
    let c := (cp - 0x10000)%N in
    [(0xD800 + N.shiftr c 10)%N; (0xDC00 + N.land c 0x3FF)%N].

(** Serialisation of the scalar values of one byte: the first one ever
    produced is dropped when it is U+FEFF. *)
Fixpoint serialize (seen : bool) (cps : list N) : bool * jsstring :=
  match cps with
  | [] => (seen, [])
  | cp :: cps' =>
      let '(seen', out) := serialize true cps' in
      (seen', if negb seen && (cp =? 0xFEFF)%N then out else utf16 cp ++ out)
  end.

Definition utf8_decode_byte (st : utf8_state) (b : byte)
  : utf8_state * jsstring :=
  let '(st', cps) := utf8_handler st (Byte.to_N b) in
  let '(seen, out) := serialize (BOM_seen st') cps in
  ({| code_point := code_point st'; bytes_seen := bytes_seen st';
      bytes_needed := bytes_needed st';
      lower_boundary := lower_boundary st';
      upper_boundary := upper_boundary st'; BOM_seen := seen |}, out).

(** *** A parser for a fragment of JSON

    It returns what [JSON.parse] returns wherever it returns a value; it
    rejects the numbers that are not integers of at most fifteen digits,
    whose rendering needs floating-point arithmetic. *)

Fixpoint skip_ws (s : jsstring) : jsstring :=
  match s with
  | c :: s' =>
      if (c =? 0x20)%N || (c =? 0x09)%N || (c =? 0x0A)%N || (c =? 0x0D)%N
      then skip_ws s' else s
  | [] => []
  end.

Definition hex_digit (c : N) : option N :=
  if between 0x30 0x39 c then Some (c - 0x30)%N
  else if between 0x41 0x46 c then Some (c - 0x37)%N
  else if between 0x61 0x66 c then Some (c - 0x57)%N
  else None.

Definition escape (c : N) : option N :=
  if (c =? 0x22)%N then Some 0x22%N
  else if (c =? 0x5C)%N then Some 0x5C%N
  else if (c =? 0x2F)%N then Some 0x2F%N
  else if (c =? 0x62)%N then Some 0x08%N
  else if (c =? 0x66)%N then Some 0x0C%N
  else if (c =? 0x6E)%N then Some 0x0A%N
  else if (c =? 0x72)%N then Some 0x0D%N
  else if (c =? 0x74)%N then Some 0x09%N
  else None.

(** The characters of a string after its opening quote, and the rest. *)
Fixpoint parse_chars (s : jsstring) : option (jsstring * jsstring) :=
  match s with
  | [] => None
  | c :: s1 =>
      if (c =? 0x22)%N then Some ([], s1)
      else if (c =? 0x5C)%N then
        match s1 with
        | [] => None
        | e :: s2 =>
            if (e =? 0x75)%N then
              match s2 with
              | h1 :: h2 :: h3 :: h4 :: s3 =>
                  match hex_digit h1, hex_digit h2, hex_digit h3,
                        hex_digit h4, parse_chars s3 with
                  | Some a, Some b, Some c', Some d, Some (t, r) =>
                      Some ((a * 4096 + b * 256 + c' * 16 + d)%N :: t, r)
                  | _, _, _, _, _ => None
                  end
              | _ => None
              end
            else
              match escape e, parse_chars s2 with
              | Some x, Some (t, r) => Some (x :: t, r)
              | _, _ => None
              end
        end
      else if (c <? 0x20)%N then None
      else match parse_chars s1 with
           | Some (t, r) => Some (c :: t, r)
           | None => None
           end
  end.

Definition is_digit (c : N) : bool := between 0x30 0x39 c.

Fixpoint digits (s : jsstring) : jsstring * jsstring :=
  match s with
  | c :: s' =>
      if is_digit c then let '(d, r) := digits s' in (c :: d, r) else ([], s)
  | [] => ([], [])
  end.

(** An integer literal: its rendering and the rest. *)
Definition parse_number (s : jsstring) : option (jsstring * jsstring) :=
  let '(minus, s1) :=
    match s with
    | c :: s' => if (c =? 0x2D)%N then (true, s') else (false, s)
    | [] => (false, s)
    end in
  let '(d, r) := digits s1 in
  let continues :=
    match r with
    | c :: _ => (c =? 0x2E)%N || (c =? 0x65)%N || (c =? 0x45)%N
    | [] => false
    end in
  match d with
  | [] => None
  | c :: d' =>
      if continues || (15 <? length d) then None
      else if (c =? 0x30)%N then
        match d' with [] => Some (lit "0", r) | _ :: _ => None end
      else Some ((if minus then lit "-" else []) ++ d, r)
  end.

(** Definition of a property: a later value for a name replaces the
    earlier one. *)
Fixpoint define (k : jsstring) (v : JSON) (fields : list (jsstring * JSON))
  : list (jsstring * JSON) :=
  match fields with
  | [] => [(k, v)]
  | (k', v') :: fields' =>
      if str_eqb k' k then (k', v) :: fields'
      else (k', v') :: define k v fields'
  end.

Fixpoint parse_value (fuel : nat) (s : jsstring) : option (JSON * jsstring) :=
  match fuel with
  | O => None
  | S fuel' =>
      match skip_ws s with
      | [] => None
      | c :: s1 =>
          if (c =? 0x22)%N then
            match parse_chars s1 with
            | Some (t, r) => Some (JStr t, r)
            | None => None
            end
          else if (c =? 0x5B)%N then
            match skip_ws s1 with
            | c' :: s2 =>
                if (c' =? 0x5D)%N then Some (JArr [], s2)
                else match parse_elements fuel' s1 with
                     | Some (xs, r) => Some (JArr xs, r)
                     | None => None
                     end
            | [] => None
            end
          else if (c =? 0x7B)%N then
            match skip_ws s1 with
            | c' :: s2 =>
                if (c' =? 0x7D)%N then Some (JObj [], s2)
                else match parse_members fuel' [] s1 with
                     | Some (fs, r) => Some (JObj fs, r)
                     | None => None
                     end
            | [] => None
            end
          else if startsWith (c :: s1) (lit "null") then Some (JNull, drop 3 s1)
          else if startsWith (c :: s1) (lit "true")
          then Some (JBool true, drop 3 s1)
          else if startsWith (c :: s1) (lit "false")
          then Some (JBool false, drop 4 s1)
          else match parse_number (c :: s1) with
               | Some (n, r) => Some (JNum n, r)
               | None => None
               end
      end
  end
with parse_elements (fuel : nat) (s : jsstring)
  : option (list JSON * jsstring) :=
  match fuel with
  | O => None
  | S fuel' =>
      match parse_value fuel' s with
      | Some (x, r) =>
          match skip_ws r with
          | c :: r' =>
              if (c =? 0x5D)%N then Some ([x], r')
              else if (c =? 0x2C)%N then
                match parse_elements fuel' r' with
                | Some (xs, r'') => Some (x :: xs, r'')
                | None => None
                end
              else None
          | [] => None
          end
      | None => None
      end
  end
with parse_members (fuel : nat) (acc : list (jsstring * JSON))
  (s : jsstring) : option (list (jsstring * JSON) * jsstring) :=
  match fuel with
  | O => None
  | S fuel' =>
      match skip_ws s with
      | q :: s1 =>
          if (q =? 0x22)%N then
            match parse_chars s1 with
            | Some (k, s2) =>
                match skip_ws s2 with
                | colon :: s3 =>
                    if (colon =? 0x3A)%N then
                      match parse_value fuel' s3 with
                      | Some (v, r) =>
                          let acc' := define k v acc in
                          match skip_ws r with
                          | c :: r' =>
                              if (c =? 0x7D)%N then Some (acc', r')
                              else if (c =? 0x2C)%N
                              then parse_members fuel' acc' r'
                              else None
                          | [] => None
                          end
                      | None => None
                      end
                    else None
                | [] => None
                end
            | None => None
            end
          else None
      | [] => None
      end
  end.

Definition fragment_parse (s : jsstring) : option JSON :=
  match parse_value (2 * length s + 2) s with
  | Some (v, r) => match skip_ws r with [] => Some v | _ :: _ => None end
  | None => None
  end.

#[export] Instance platform : Platform :=
  {| decoder_state := utf8_state;
     decoder_init := utf8_init;
     decode_byte := utf8_decode_byte;
     JSON_parse := fragment_parse |}.

(** The bytes of an ASCII literal. *)
Definition bytes (s : string) : list byte := String.list_byte_of_string s.

End Browser.

(** ** Notions the statements are written with *)

(** The elements [buffer.split('\n')] leaves in [lines] after
    [lines.pop()], and the element popped. *)
Definition complete_lines (text : jsstring) : list jsstring :=
  (pop (split LF text)).1.

Definition remainder (text : jsstring) : jsstring :=
  default [] (pop (split LF text)).2.

(** The text of the elements [onChunk] is called with, in order. *)
Definition fragments (cs : list callback) : jsstring :=
  mjoin ((λ c, match c with OnChunk v => ToString v | _ => [] end) <$> cs).

(** What the envelope of one event adds to the text: its
    [result.delta.content] when that is truthy. *)
Definition content_fragment (json : JSON) : jsstring :=
  match result_delta_content json with
  | Normal (Some c) => if truthy (Some c) then ToString c else []
  | _ => []
  end.

(** The calls other than [onComplete] and [onError]. *)
Definition is_progress (c : callback) : Prop :=
  match c with
  | OnChunk _ | ConsoleError => True
  | OnComplete | OnError _ => False
  end.

(** [x] put in front of the first element of an array of strings. *)
Definition prepend (x : jsstring) (ls : list jsstring) : list jsstring :=
  match ls with
  | [] => [x]
  | l :: ls' => (x ++ l) :: ls'
  end.

Definition is_data_line (line : jsstring) : bool :=
  startsWith line (lit "data: ").

Definition payload (line : jsstring) : jsstring := trim (slice 6 line).

Definition is_terminal (line : jsstring) : bool :=
  is_data_line line && str_eqb (payload line) (lit "[DONE]").

Section notions.
Context `{Platform}.

(** The text the decoder has produced once it has been given [bs], in
    whatever pieces. *)
Definition decoded (bs : list byte) : jsstring :=
  (TextDecoder_decode decoder_init bs).2.

Definition end_callbacks (e : body_end) : list callback :=
  match e with
  | Closed => [OnComplete]
  | Failed m => [ConsoleError; OnError m]
  end.

(** The calls made for a body, as a function of its whole text. *)
Definition text_callbacks (text : jsstring) (e : body_end) : list callback :=
  let '(cs, returned) := for_lines (complete_lines text) in
  cs ++ if returned then [] else end_callbacks e.

(** The iterations of the loop over [values], the body not yet ended. *)
Fixpoint read_values (l : reader_loop) (values : list (list byte))
  : list callback * option reader_loop :=
  match values with
  | [] => ([], Some l)
  | value :: values' =>
      let '(cs, next) := read_value l value in
      match next with
      | None => (cs, None)
      | Some l' =>
          let '(cs', next') := read_values l' values' in (cs ++ cs', next')
      end
  end.

(** The envelopes of the data lines that parse, up to the terminal
    line. *)
Fixpoint parsed_events (lines : list jsstring) : list JSON :=
  match lines with
  | [] => []
  | line :: lines' =>
      if is_terminal line then []
      else if is_data_line line then
        match JSON_parse (payload line) with
        | Some json => json :: parsed_events lines'
        | None => parsed_events lines'
        end
      else parsed_events lines'
  end.

(** The state in which the turn has been committed with [text]. *)
Definition committed (text : jsstring) (s : state) : state :=
  set_pending None
    (set_isStreaming false
       (addMessageToConversation (lit "assistant") text s)).

Definition append_all (ms : list Message) (s : state) : state :=
  foldl (λ s' m, addMessageToConversation (role m) (content m) s') s ms.

(** What a caller of [getCurrentMessages] reads from the array it is
    given. *)
Definition read_history (s : state) : list Message :=
  let '(s', r) := getCurrentMessages s in deref s' r.

(** A call of [sendMessage] that signals a condition: it throws, or it
    shows a notification. *)
Definition signals_condition (input_value : jsstring) (s : state) : Prop :=
  (sendMessage input_value s).2 = Throw ∨
  toasts (sendMessage input_value s).1 ≠ toasts s.

(** The loop state of the pending call replaced. *)
Definition with_buffer (b : jsstring) (s : state) : state :=
  set_pending
    ((λ t, {| fullResponse := fullResponse t; posted := posted t;
              loop := {| decoder := decoder (loop t); buffer := b |} |})
       <$> pending s) s.

End notions.

(** ** The scenario of the specification *)

(** A JSON text written with apostrophes for its quotation marks. *)
Definition json_text (s : string) : jsstring :=
  (λ c, if (c =? 0x27)%N then 0x22%N else c) <$> lit s.

Definition event1 : jsstring :=
  json_text "{'result': {'delta': {'role': 'assistant', 'content': ''}, 'finish_reason': null}, 'usage': null, 'created': 1762669782, 'id': 'tocqueville-9303a5a3'}".

Definition event2 : jsstring :=
  json_text "{'result': {'delta': {'content': 'A'}, 'finish_reason': null}, 'usage': null, 'created': 1762669782, 'id': 'tocqueville-9303a5a3'}".

Definition event3 : jsstring :=
  json_text "{'result': {'delta': {'content': 'B'}, 'finish_reason': 'stop'}, 'usage': null, 'created': 1762669782, 'id': 'tocqueville-9303a5a3'}".

Definition data_line (payload_text : jsstring) : jsstring :=
  lit "data: " ++ payload_text.

(** The text of the body: each event on a line, a blank line after it. *)
Definition wire_text : jsstring :=
  data_line event1 ++ [LF; LF] ++ data_line event2 ++ [LF; LF] ++
  data_line event3 ++ [LF; LF] ++ data_line (lit "[DONE]") ++ [LF; LF].

Definition user_message (text : jsstring) : Message :=
  {| role := lit "user"; content := text |}.

Definition assistant_message (text : jsstring) : Message :=
  {| role := lit "assistant"; content := text |}.

(** Two states with the same conversations and the same turn: they differ
    at most in the notifications shown. *)
Definition same_turn_state `{Platform} (s s' : state) : Prop :=
  heap s' = heap s ∧ masterConversations s' = masterConversations s ∧
  currentMaster s' = currentMaster s ∧ conversations s' = conversations s ∧
  isStreaming s' = isStreaming s ∧ pending s' = pending s.

(** The second submit of the specification: rejected with a condition,
    the conversations and the turn left as they were. *)
Definition rejected_with_condition `{Platform}
  (input_value : jsstring) (s : state) : Prop :=
  signals_condition input_value s ∧
  same_turn_state s (sendMessage input_value s).1.

(** The snapshot of the specification: what was read through
    [getCurrentMessages] stays as it was, whatever is appended or cleared
    afterwards. *)
Definition is_snapshot `{Platform} (ro c : jsstring) (s : state) : Prop :=
  let '(s1, r) := getCurrentMessages s in
  deref (addMessageToConversation ro c s1) r = deref s1 r ∧
  deref (clearConversation s1).1 r = deref s1 r.

Module Scenario.
Import Browser.

(** The bytes of a text of ASCII characters. *)
Definition ascii_bytes (text : jsstring) : list byte := omap Byte.of_N text.

Definition wire : list byte := ascii_bytes wire_text.

Definition wire_in_pieces : list (list byte) :=
  [take 9 wire; take 100 (drop 9 wire); drop 109 wire].

(** An event whose content is two characters of three bytes each, whole
    and cut inside the first character. *)
Definition greeting_head : list byte :=
  ascii_bytes
    (data_line (json_text "{'result': {'delta': {'content': '")).

Definition greeting_tail : list byte :=
  ascii_bytes (json_text "'}}}" ++ [LF]).

Definition greeting_whole : list (list byte) :=
  [greeting_head ++ [xe4; xbd; xa0; xe5; xa5; xbd] ++ greeting_tail].

Definition greeting_cut : list (list byte) :=
  [greeting_head ++ [xe4]; [xbd; xa0; xe5; xa5]; xbd :: greeting_tail].

(** A page just loaded with nothing stored. *)
Definition fresh : state := ChatPage_new None.

(** The page after the turn of the scenario. *)
Definition answered : state := run fresh [Send (lit "Q"); Read wire].

(** The page in the middle of a turn: the second event has arrived. *)
Definition busy : state :=
  run fresh [Send (lit "Q");
             Read (ascii_bytes (data_line event2 ++ [LF; LF]))].

(** The page once a message has been submitted, and the call that is then
    pending. *)
Definition sent : state := run fresh [Send (lit "Q")].

Definition first_turn : turn :=
  {| fullResponse := [];
     posted := {| character := lit "tocqueville";
                  messages := [user_message (lit "Q")];
                  stream := true; temperature := (1 # 2)%Q |};
     loop := loop_init |}.

(** The page on a master that has no conversation yet. *)
Definition on_weber : state := set_currentMaster (lit "weber") fresh.

(** A page loaded with conversations stored for two masters. *)
Definition two_masters : state :=
  ChatPage_new
    (Some (<[lit "weber" := [user_message (lit "W")]]>
             {[lit "tocqueville" := [user_message (lit "T")]]})).

(** A body that ends with a data line that has no line terminator. *)
Definition cut_short : list (list byte) :=
  [ascii_bytes (data_line event2 ++ [LF; LF]);
   ascii_bytes (data_line event3)].

(** A body with a payload that is not JSON between two events. *)
Definition with_garbage : list (list byte) :=
  [ascii_bytes (data_line event2 ++ [LF] ++ data_line (lit "{oops") ++ [LF]
                ++ data_line event3 ++ [LF])].

End Scenario.

(** ** More of the page: what is stored, and the events of a session *)

Definition CR : N := 0x0D%N.


(** An event other than the selection of a master that is not in the
    table: the selector lists the ids of [MASTERS] only. *)
Definition selects_known_master (e : event) : bool :=
  match e with Switch m => bool_decide (m ∈ MASTERS) | _ => true end.


(** A call of [onChunk] is made with a truthy value. *)
Definition truthy_chunk (c : callback) : Prop :=
  match c with
  | OnChunk v => truthy (Some v) = true
  | _ => True
  end.

Section session.
Context `{Platform}.

(** The current master is one of the table, and the page is streaming
    exactly when a call of [api.streamMessage] is pending. *)
Definition turn_consistent (s : state) : Prop :=
  currentMaster s ∈ MASTERS ∧ (isStreaming s = true ↔ is_Some (pending s)).



(** ** App.showFeedback and FeedbackModal *)

(** The fields of a [FeedbackModal]: [messages] is the array it was given,
    not a copy. *)
Record FeedbackModal := {
  modal_messages : nat;
  modal_userId : jsstring;
  modal_rating : Z;
}.

(** [showFeedback], on the [userId] of the chat page: [None] when the
    notification that there is nothing to rate is shown instead of the
    dialog. *)
Definition showFeedback (userId : jsstring) (s : state)
  : state * option FeedbackModal :=
  let '(s', r) := getCurrentMessages s in
  if (length (deref s' r) =? 0)%nat then (s', None)
  else (s', Some {| modal_messages := r; modal_userId := userId;
                    modal_rating := 5 |}).

(** A click on the rating button [n]. *)
Definition select_rating (n : Z) (m : FeedbackModal) : FeedbackModal :=
  {| modal_messages := modal_messages m; modal_userId := modal_userId m;
     modal_rating := n |}.

(** The body [api.submitFeedback] posts: serialised when the submit button
    is clicked. [comment || null] is [None] for an empty comment. *)
Record feedback_request := {
  user_id : jsstring;
  overall_rating : Z;
  request_comment : option jsstring;
  request_messages : list Message;
}.

Definition submitFeedback (comment : jsstring) (m : FeedbackModal) (s : state)
  : feedback_request :=
  {| user_id := modal_userId m;
     overall_rating := modal_rating m;
     request_comment := if str_truthy comment then Some comment else None;
     request_messages := deref s (modal_messages m) |}.

End session.

(** ** ChatPage.getUserId *)

(** [getUserId] on the stored item [userId] ([None]: [getItem] gives
    [null]), given the renderings of [Date.now()] and of
    [Math.random().toString(36).substr(2, 9)]: the id and the item
    afterwards. *)
Definition getUserId (now random : jsstring) (userId : option jsstring)
  : jsstring * option jsstring :=
  let generated := lit "user_" ++ now ++ lit "_" ++ random in
  match userId with
  | Some u => if str_truthy u then (u, userId) else (generated, Some generated)
  | None => (generated, Some generated)
  end.

(** ** APIService: the conversations and feedbacks kept in localStorage *)

(** An item of [localStorage] that holds JSON: absent (or empty), a text
    that [JSON.parse] rejects, or the text of a value. *)
Inductive item (A : Type) :=
  | Missing
  | Unparseable
  | Stored (a : A).
Arguments Missing {A}.
Arguments Unparseable {A}.
Arguments Stored {A} a.

(** A saved conversation: its [id] and the rest of the object. *)
Record conversation := { conv_id : jsstring; conv_rest : JSON }.

(** [{ rating, comment, timestamp }], as the feedback dialog saves it:
    [rating] is the integer [parseInt] read from the button, or 5. *)
Record feedback := {
  rating : Z;
  comment : jsstring;
  timestamp : jsstring;
}.

(** The items [conversations] and [feedbacks]. *)
Record local_storage := {
  item_conversations : item (list conversation);
  item_feedbacks : item (list feedback);
}.

Definition getAllConversationsLocal (ls : local_storage)
  : list conversation :=
  match item_conversations ls with
  | Stored l => l
  | Missing | Unparseable => []
  end.

Definition getAllFeedbacks (ls : local_storage) : list feedback :=
  match item_feedbacks ls with
  | Stored l => l
  | Missing | Unparseable => []
  end.

(** [saveConversation]: [unshift], then one [pop] above fifty. *)
Definition saveConversation (c : conversation) (ls : local_storage)
  : local_storage :=
  let conversations := c :: getAllConversationsLocal ls in
  let conversations' :=
    if (50 <? length conversations)%nat then removelast conversations
    else conversations in
  {| item_conversations := Stored conversations';
     item_feedbacks := item_feedbacks ls |}.

(** [getConversationLocal]: [find], [None] for [undefined]. *)
Definition getConversationLocal (id : jsstring) (ls : local_storage)
  : option conversation :=
  List.find (λ c, str_eqb (conv_id c) id) (getAllConversationsLocal ls).

Definition deleteConversationLocal (id : jsstring) (ls : local_storage)
  : local_storage :=
  {| item_conversations :=
       Stored (List.filter (λ c, negb (str_eqb (conv_id c) id))
                 (getAllConversationsLocal ls));
     item_feedbacks := item_feedbacks ls |}.




(** ** formatDateTime *)

(** The text [formatDateTime] returns: ["刚刚"], a count of minutes, hours
    or days followed by its unit, or the calendar date. *)
Inductive time_label :=
  | JustNow
  | MinutesAgo (minutes : Z)
  | HoursAgo (hours : Z)
  | DaysAgo (days : Z)
  | CalendarDate.

(** [formatDateTime] as a function of [diff = now - d], a number of
    milliseconds, [None] when the date is invalid and [diff] is [NaN]. *)
Definition formatDateTime (diff : option Z) : time_label :=
  match diff with
  | None => CalendarDate
  | Some diff =>
      if (diff <? 60000)%Z then JustNow
      else if (diff <? 3600000)%Z then MinutesAgo (diff / 60000)
      else if (diff <? 86400000)%Z then HoursAgo (diff / 3600000)
      else if (diff <? 604800000)%Z then DaysAgo (diff / 86400000)
      else CalendarDate
  end.

(** ** App.handleRoute and App.navigateTo *)

(** The own properties of [this.pages]. *)
Definition pages : list jsstring :=
  [lit "chat"; lit "stats"; lit "settings"; lit "about"].

(** The properties every object inherits from [Object.prototype], all of
    them truthy. *)
Definition Object_prototype : list jsstring :=
  [lit "constructor"; lit "hasOwnProperty"; lit "isPrototypeOf";
   lit "propertyIsEnumerable"; lit "toLocaleString"; lit "toString";
   lit "valueOf"; lit "__proto__"; lit "__defineGetter__";
   lit "__defineSetter__"; lit "__lookupGetter__"; lit "__lookupSetter__"].

(** What the [#app] element holds: nothing, or the element a page
    rendered. *)
Inductive app_container :=
  | NoElement
  | Rendered (page : jsstring).

Record App := {
  currentPage : jsstring;
  appContainer : app_container;
}.

(** [navigateTo(page)]. The value of [this.pages[page]] is a page for an
    own property and a function or an object without [render] for an
    inherited one: [pageInstance.render()] is then a TypeError, raised once
    the container has been emptied. *)
Definition navigateTo (page : jsstring) (a : App) : App * completion () :=
  let page :=
    if bool_decide (page ∈ pages) || bool_decide (page ∈ Object_prototype)
    then page else lit "chat" in
  if str_eqb page (lit "chat") &&
     match appContainer a with
     | Rendered shown => str_eqb shown (lit "chat")
     | NoElement => false
     end
  then ({| currentPage := page; appContainer := appContainer a |}, Normal ())
  else if bool_decide (page ∈ pages)
  then ({| currentPage := page; appContainer := Rendered page |}, Normal ())
  else ({| currentPage := page; appContainer := NoElement |}, Throw).

(** [handleRoute] on [window.location.hash]. *)
Definition handleRoute (hash : jsstring) (a : App) : App * completion () :=
  let h := slice 1 hash in
  navigateTo (if str_truthy h then h else lit "chat") a.

(** ** App.setTheme and the two theme toggles *)

(** The text of the [.theme-icon] element. *)
Inductive theme_icon :=
  | Sun
  | Moon.

(** What the theme code reads and writes: the [data-theme] attribute of
    the document element ([None]: [getAttribute] gives [null]), the
    [theme] item of [localStorage] and the icon. The document has a
    [.theme-icon] and a [#theme-toggle] element. *)
Record appearance := {
  data_theme : option jsstring;
  item_theme : option jsstring;
  theme_icon_text : theme_icon;
}.

(** [setTheme(theme, save = true)] *)
Definition setTheme (theme : jsstring) (save : bool) (a : appearance)
  : appearance :=
  {| data_theme := Some theme;
     item_theme := if save then Some theme else item_theme a;
     theme_icon_text := if str_eqb theme (lit "dark") then Sun else Moon |}.

(** [localStorage.getItem('theme') || 'light'] *)
Definition savedTheme (a : appearance) : jsstring :=
  match item_theme a with
  | Some theme => if str_truthy theme then theme else lit "light"
  | None => lit "light"
  end.

(** The first step of [App.init]. *)
Definition init_theme (a : appearance) : appearance :=
  setTheme (savedTheme a) false a.

(** A click on [#theme-toggle], the listener of [setupThemeToggle]. *)
Definition theme_toggle_click (a : appearance) : appearance :=
  let newTheme :=
    match data_theme a with
    | Some currentTheme =>
        if str_eqb currentTheme (lit "dark") then lit "light" else lit "dark"
    | None => lit "dark"
    end in
  setTheme newTheme true a.

(** The toggle [SettingsPage.render] creates: whether it has the class
    [active]. *)
Definition settings_toggle (a : appearance) : bool :=
  str_eqb (savedTheme a) (lit "dark").

(** A click on that toggle: the listener of [createToggle] toggles the
    class and calls [onChange] with what the class then is. *)
Definition settings_toggle_click (active : bool) (a : appearance)
  : bool * appearance :=
  let active' := negb active in
  (active', setTheme (if active' then lit "dark" else lit "light") true a).

(** The toggle of the settings page shows the theme of the document. *)
Definition shows_theme (active : bool) (a : appearance) : Prop :=
  data_theme a = Some (if active then lit "dark" else lit "light").

(** ** Sessions, stored items and pages on which the properties are run *)

Module Sessions.
Import Browser.


(** A session in which the master of the table is selected again during a
    turn, and the body is then read and closed. *)
Definition reselect : list event :=
  [Send (lit "Q"); Switch (lit "tocqueville"); Read Scenario.wire; ReadDone].

(** A value that holds the second event and its blank line. *)
Definition second_event : list byte :=
  Scenario.ascii_bytes (data_line event2 ++ [LF; LF]).

(** The decoder between two characters, once it has decoded one. *)
Definition utf8_between : utf8_state :=
  {| code_point := 0; bytes_seen := 0; bytes_needed := 0;
     lower_boundary := 0x80; upper_boundary := 0xBF; BOM_seen := true |}.

(** The call of the scenario once [second_event] has been read. *)
Definition after_second_event : turn :=
  {| fullResponse := lit "A";
     posted := posted Scenario.first_turn;
     loop := {| decoder := utf8_between; buffer := [] |} |}.

(** The conversation of id [n], a single code unit. *)
Definition numbered (n : nat) (rest : JSON) : conversation :=
  {| conv_id := [N.of_nat n]; conv_rest := rest |}.


(** Two conversations stored, the first with the id 0. *)
Definition two_stored : local_storage :=
  {| item_conversations := Stored [numbered 0 JNull; numbered 1 JNull];
     item_feedbacks := Missing |}.

(** Fifty-one conversations, of the ids 0 to 50. *)
Definition fifty_one : list conversation :=
  (λ n, numbered n JNull) <$> seq 0 51.


(** The application with the chat page shown. *)
Definition on_chat : App :=
  {| currentPage := lit "chat"; appContainer := Rendered (lit "chat") |}.

(** A document as it is served, with a theme stored that is no theme. *)
Definition blue_stored : appearance :=
  {| data_theme := None; item_theme := Some (lit "blue");
     theme_icon_text := Moon |}.

(** A document in the light theme, nothing stored. *)
Definition light_document : appearance :=
  {| data_theme := Some (lit "light"); item_theme := None;
     theme_icon_text := Moon |}.

End Sessions.

(** * Properties *)

(** ** Strings *)

Lemma trimStart_nil s :
  trimStart s = [] → Forall (λ c, is_white_space c = true) s.
Proof.
  induction s as [|c s IH]; simpl; [constructor|].
  destruct (is_white_space c) eqn:E; [|done].
  intros Hs. constructor; auto.
Qed.

Lemma trimStart_head s c s' :
  trimStart s = c :: s' → is_white_space c = false.
Proof.
  induction s as [|a s IH]; simpl; [done|].
  destruct (is_white_space a) eqn:E; [auto|].
  by intros [= -> _].
Qed.

Lemma trim_nil s : trim s = [] → Forall (λ c, is_white_space c = true) s.
Proof.
  unfold trim, trimEnd. intros E.
  apply (f_equal (@rev N)) in E. rewrite rev_involutive in E. simpl in E.
  apply trimStart_nil, Forall_rev in E. rewrite rev_involutive in E.
  destruct (trimStart s) as [|c s'] eqn:Es; [by apply trimStart_nil|].
  apply trimStart_head in Es. apply Forall_cons in E as [E _]. congruence.
Qed.

(** A line that starts with ["data: "] is not blank: the first conjunct of
    the test on a line is implied by the second. *)
Lemma data_line_truthy line :
  startsWith line (lit "data: ") = true → str_truthy (trim line) = true.
Proof.
  intros Hd. destruct (trim line) as [|c t] eqn:E; [|done].
  apply trim_nil in E. destruct line as [|c line]; [done|].
  cbn [lit startsWith] in Hd. apply andb_prop in Hd as [Hc _].
  apply N.eqb_eq in Hc. subst c. by apply Forall_cons in E as [E _].
Qed.

Lemma str_eqb_eq s t : str_eqb s t = true ↔ s = t.
Proof. unfold str_eqb. apply bool_decide_eq_true. Qed.

Lemma str_eqb_neq s t : str_eqb s t = false ↔ s ≠ t.
Proof. unfold str_eqb. apply bool_decide_eq_false. Qed.

(** ** Splitting into lines *)

Lemma split_nonempty sep s : split sep s ≠ [].
Proof.
  destruct s as [|c s]; simpl; [done|].
  destruct (c =? sep)%N; [done|]. by destruct (split sep s).
Qed.

Lemma split_cons_LF s : split LF (LF :: s) = [] :: split LF s.
Proof. reflexivity. Qed.

Lemma split_cons_ne c s :
  c ≠ LF → split LF (c :: s) = prepend [c] (split LF s).
Proof.
  intros Hc. simpl. apply N.eqb_neq in Hc. rewrite Hc.
  by destruct (split LF s).
Qed.

Lemma prepend_prepend x y ls : prepend x (prepend y ls) = prepend (x ++ y) ls.
Proof. destruct ls; simpl; by rewrite <- ?(assoc_L (++)). Qed.

Lemma prepend_nil ls : ls ≠ [] → prepend [] ls = ls.
Proof. by destruct ls. Qed.

Lemma prepend_app x l ls ls' :
  prepend x ((l :: ls) ++ ls') = prepend x (l :: ls) ++ ls'.
Proof. reflexivity. Qed.

Lemma split_app_noLF x s :
  LF ∉ x → split LF (x ++ s) = prepend x (split LF s).
Proof.
  induction x as [|c x IH]; intros Hx; simpl app.
  - symmetry. apply prepend_nil, split_nonempty.
  - apply not_elem_of_cons in Hx as [Hc Hx].
    rewrite split_cons_ne by done. rewrite IH by done.
    by rewrite prepend_prepend.
Qed.

Lemma split_elements_noLF s : Forall (λ l, LF ∉ l) (split LF s).
Proof.
  induction s as [|c s IH].
  - repeat constructor. by intros ?%not_elem_of_nil.
  - destruct (decide (c = LF)) as [->|Hc].
    + rewrite split_cons_LF. constructor; [by intros ?%not_elem_of_nil|done].
    + rewrite split_cons_ne by done.
      destruct (split LF s) as [|l ls]; simpl.
      * repeat constructor. by intros ?%list_elem_of_singleton.
      * apply Forall_cons in IH as [Hl Hls]. constructor; [|done].
        apply not_elem_of_cons. by split.
Qed.

Lemma pop_snoc {A} (l : list A) x : pop (l ++ [x]) = (l, Some x).
Proof. unfold pop. by rewrite removelast_last, last_snoc. Qed.

Lemma split_decomp s : split LF s = complete_lines s ++ [remainder s].
Proof.
  unfold complete_lines, remainder.
  destruct (split LF s) as [|r L _] eqn:E using rev_ind.
  - by destruct (split_nonempty LF s).
  - by rewrite pop_snoc.
Qed.

Lemma split_snoc_inv s L r :
  split LF s = L ++ [r] → complete_lines s = L ∧ remainder s = r.
Proof.
  intros E. unfold complete_lines, remainder. by rewrite E, pop_snoc.
Qed.

Lemma remainder_noLF s : LF ∉ remainder s.
Proof.
  pose proof (split_elements_noLF s) as Hs. rewrite split_decomp in Hs.
  apply Forall_app in Hs as [_ Hr]. by inversion Hr.
Qed.

Lemma split_noLF x : LF ∉ x → split LF x = [x].
Proof.
  intros Hx. rewrite <- (app_nil_r x) at 1.
  rewrite split_app_noLF by done. simpl. by rewrite app_nil_r.
Qed.

Lemma split_snoc_app a b L r :
  split LF a = L ++ [r] → split LF (a ++ b) = L ++ prepend r (split LF b).
Proof.
  revert L r. induction a as [|c a IH]; intros L r E.
  - destruct L as [|l [|l' L]]; simplify_eq/=.
    symmetry. apply prepend_nil, split_nonempty.
  - pose proof (split_decomp a) as Ea.
    destruct (decide (c = LF)) as [->|Hc].
    + rewrite split_cons_LF, Ea in E. simpl app. rewrite split_cons_LF.
      rewrite (IH _ _ Ea).
      rewrite app_comm_cons in E. apply app_inj_tail in E as [<- <-]. done.
    + rewrite split_cons_ne, Ea in E by done. simpl app.
      rewrite split_cons_ne by done. rewrite (IH _ _ Ea).
      destruct (complete_lines a) as [|l0 L0]; simpl in *.
      * destruct L as [|l [|l' L]]; simplify_eq/=.
        apply prepend_prepend.
      * rewrite app_comm_cons in E. apply app_inj_tail in E as [<- <-]. done.
Qed.

Lemma lines_app a b :
  complete_lines (a ++ b) = complete_lines a ++ complete_lines (remainder a ++ b)
  ∧ remainder (a ++ b) = remainder (remainder a ++ b).
Proof.
  apply split_snoc_inv.
  rewrite (split_snoc_app a b _ _ (split_decomp a)).
  rewrite <- split_app_noLF by apply remainder_noLF.
  by rewrite split_decomp, (assoc_L (++)).
Qed.

Lemma complete_lines_noLF x : LF ∉ x → complete_lines x = [].
Proof.
  intros Hx. by apply (split_snoc_inv x [] x), split_noLF.
Qed.

Lemma remainder_of_noLF x : LF ∉ x → remainder x = x.
Proof.
  intros Hx. by apply (split_snoc_inv x [] x), split_noLF.
Qed.

(** ** The reader loop *)

Section api_facts.
Context `{Platform}.

Lemma decode_app d v1 v2 :
  TextDecoder_decode d (v1 ++ v2) =
  let '(d1, t1) := TextDecoder_decode d v1 in
  let '(d2, t2) := TextDecoder_decode d1 v2 in
  (d2, t1 ++ t2).
Proof.
  revert d. induction v1 as [|b v1 IH]; intros d; simpl.
  - by destruct (TextDecoder_decode d v2).
  - destruct (decode_byte d b) as [d1 t1]. rewrite IH.
    destruct (TextDecoder_decode d1 v1) as [d2 t2].
    destruct (TextDecoder_decode d2 v2) as [d3 t3].
    by rewrite (assoc_L (++)).
Qed.

Lemma handle_line_cases line :
  handle_line line = ([], false) ∨
  (∃ v, handle_line line = ([OnChunk v], false)) ∨
  handle_line line = ([ConsoleError], false) ∨
  handle_line line = ([OnComplete], true).
Proof.
  unfold handle_line.
  repeat (case_match; eauto).
Qed.

Lemma for_lines_app L1 L2 :
  for_lines (L1 ++ L2) =
  let '(cs1, r1) := for_lines L1 in
  if r1 then (cs1, true)
  else let '(cs2, r2) := for_lines L2 in (cs1 ++ cs2, r2).
Proof.
  induction L1 as [|line L1 IH]; simpl.
  - by destruct (for_lines L2).
  - destruct (handle_line line) as [cs [|]]; [done|].
    rewrite IH. destruct (for_lines L1) as [cs1 [|]]; [done|].
    destruct (for_lines L2) as [cs2 r2]. by rewrite (assoc_L (++)).
Qed.

(** The calls of a run of lines are progress calls, followed by
    [onComplete] exactly when the function returned. *)
Lemma for_lines_shape L cs r :
  for_lines L = (cs, r) →
  ∃ cs0, Forall is_progress cs0 ∧
         cs = cs0 ++ (if r then [OnComplete] else []).
Proof.
  revert cs r. induction L as [|line L IH]; intros cs r; simpl.
  - intros [= <- <-]. exists []. by split.
  - destruct (handle_line_cases line) as [E|[[v E]|[E|E]]]; rewrite E.
    + destruct (for_lines L) as [cs' r']. intros [= <- <-].
      destruct (IH _ _ eq_refl) as (cs0 & H0 & ->). by exists cs0.
    + destruct (for_lines L) as [cs' r']. intros [= <- <-].
      destruct (IH _ _ eq_refl) as (cs0 & H0 & ->).
      exists (OnChunk v :: cs0). split; [by constructor|done].
    + destruct (for_lines L) as [cs' r']. intros [= <- <-].
      destruct (IH _ _ eq_refl) as (cs0 & H0 & ->).
      exists (ConsoleError :: cs0). split; [by constructor|done].
    + intros [= <- <-]. exists []. by split.
Qed.

Lemma read_value_lines l value :
  read_value l value =
  let '(d, text) := TextDecoder_decode (decoder l) value in
  let '(cs, returned) := for_lines (complete_lines (buffer l ++ text)) in
  (cs, if returned then None
       else Some {| decoder := d;
                    buffer := remainder (buffer l ++ text) |}).
Proof.
  unfold read_value. destruct (TextDecoder_decode _ _) as [d text].
  by rewrite (split_decomp (buffer l ++ text)), pop_snoc.
Qed.

(** The iterations over [values] as a function of the text they carry. *)
Lemma read_values_text l values :
  LF ∉ buffer l →
  read_values l values =
  let '(d, text) := TextDecoder_decode (decoder l) (concat values) in
  let '(cs, returned) := for_lines (complete_lines (buffer l ++ text)) in
  (cs, if returned then None
       else Some {| decoder := d;
                    buffer := remainder (buffer l ++ text) |}).
Proof.
  revert l. induction values as [|value values IH]; intros [d b] Hb; simpl in *.
  - rewrite app_nil_r, complete_lines_noLF, remainder_of_noLF by done. done.
  - rewrite read_value_lines, decode_app. simpl.
    destruct (TextDecoder_decode d value) as [d1 t1].
    specialize (IH {| decoder := d1; buffer := remainder (b ++ t1) |}
                   (remainder_noLF _)). simpl in IH.
    destruct (TextDecoder_decode d1 (concat values)) as [d2 t2].
    destruct (lines_app (b ++ t1) t2) as [EL ER].
    rewrite <- (assoc_L (++)) in EL, ER. rewrite EL, ER, for_lines_app.
    destruct (for_lines (complete_lines (b ++ t1))) as [cs1 [|]]; [done|].
    rewrite IH.
    by destruct (for_lines (complete_lines (remainder (b ++ t1) ++ t2)))
      as [cs2 r2].
Qed.

Lemma read_all_values l values e :
  read_all l values e =
  let '(cs, next) := read_values l values in
  cs ++ match next with None => [] | Some _ => end_callbacks e end.
Proof.
  revert l. induction values as [|value values IH]; intros l; simpl.
  - by destruct e.
  - destruct (read_value l value) as [cs [l'|]]; [|by rewrite app_nil_r].
    rewrite IH. destruct (read_values l' values) as [cs' next'].
    by rewrite (assoc_L (++)).
Qed.

(** The calls [streamMessage] makes are a function of the text of the
    body, whatever the pieces it arrived in. *)
Lemma streamMessage_text values e :
  streamMessage values e = text_callbacks (decoded (concat values)) e.
Proof.
  unfold streamMessage, text_callbacks, decoded.
  rewrite read_all_values, read_values_text by (by intros ?%not_elem_of_nil).
  simpl. destruct (TextDecoder_decode decoder_init (concat values)) as [d t].
  simpl. by destruct (for_lines (complete_lines t)) as [cs [|]].
Qed.

End api_facts.

(** ** The conversation store *)

Section store_facts.
Context `{Platform}.

Implicit Types (s : state) (P : jsstring) (m : Message).

Lemma add_unfold s ro c :
  addMessageToConversation ro c s =
  let push := alter (λ a, a ++ [{| role := ro; content := c |}]) in
  match conversations s !! currentMaster s with
  | Some r => saveConversations (set_heap (push r) s)
  | None =>
      saveConversations
        (set_heap (push (length (heap s)))
           (set_conversations <[currentMaster s := length (heap s)]>
              (set_heap (λ h, h ++ [[]]) s)))
  end.
Proof.
  unfold addMessageToConversation.
  destruct (conversations s !! currentMaster s) as [r|] eqn:E; simpl.
  - by rewrite E.
  - by rewrite lookup_insert_eq.
Qed.

Lemma wf_bound s P r :
  wf s → conversations s !! P = Some r → is_Some (heap s !! r).
Proof. intros [Hb _] E. apply lookup_lt_is_Some_2. eauto. Qed.

(** An append is seen in the history of the current master, and in no
    other. *)
Lemma history_add s ro c P :
  wf s →
  history (addMessageToConversation ro c s) P =
  if decide (P = currentMaster s)
  then history s P ++ [{| role := ro; content := c |}]
  else history s P.
Proof.
  intros Hwf. rewrite add_unfold. unfold history, deref.
  destruct (conversations s !! currentMaster s) as [r|] eqn:E; simpl.
  - case_decide as HP; [subst P|].
    + rewrite E, list_lookup_alter_eq.
      by destruct (wf_bound _ _ _ Hwf E) as [a ->].
    + destruct (conversations s !! P) as [r'|] eqn:E'; [|done].
      rewrite list_lookup_alter_ne; [done|].
      intros ->. apply HP. by apply (proj2 Hwf P (currentMaster s) r').
  - case_decide as HP; [subst P|].
    + rewrite E, lookup_insert_eq, list_lookup_alter_eq.
      by rewrite list_lookup_middle.
    + rewrite lookup_insert_ne by done.
      destruct (conversations s !! P) as [r'|] eqn:E'; [|done].
      pose proof (proj1 Hwf _ _ E') as Hr.
      rewrite list_lookup_alter_ne by lia. by rewrite lookup_app_l.
Qed.

Lemma wf_add s ro c : wf s → wf (addMessageToConversation ro c s).
Proof.
  intros [Hb Hinj]. rewrite add_unfold.
  destruct (conversations s !! currentMaster s) as [r|] eqn:E;
    split; simpl.
  - intros P r' E'. rewrite length_alter. eauto.
  - done.
  - intros P r' E'. rewrite length_alter, length_app. simpl.
    destruct (decide (P = currentMaster s)) as [->|HP].
    + rewrite lookup_insert_eq in E'. simplify_eq. lia.
    + rewrite lookup_insert_ne in E' by done. apply Hb in E'. lia.
  - intros P P' r' E1 E2.
    destruct (decide (P = currentMaster s)) as [->|HP],
             (decide (P' = currentMaster s)) as [->|HP']; [done|..].
    + rewrite lookup_insert_eq in E1. rewrite lookup_insert_ne in E2 by done.
      simplify_eq. apply Hb in E2. lia.
    + rewrite lookup_insert_eq in E2. rewrite lookup_insert_ne in E1 by done.
      simplify_eq. apply Hb in E1. lia.
    + rewrite lookup_insert_ne in E1, E2 by done. eauto.
Qed.

Lemma add_fields s ro c :
  currentMaster (addMessageToConversation ro c s) = currentMaster s ∧
  isStreaming (addMessageToConversation ro c s) = isStreaming s ∧
  pending (addMessageToConversation ro c s) = pending s ∧
  toasts (addMessageToConversation ro c s) = toasts s.
Proof.
  rewrite add_unfold. by destruct (conversations s !! currentMaster s).
Qed.

Lemma add_has_array s ro c :
  is_Some (conversations (addMessageToConversation ro c s)
             !! currentMaster s).
Proof.
  rewrite add_unfold.
  destruct (conversations s !! currentMaster s) as [r|] eqn:E; simpl.
  - by rewrite E.
  - rewrite lookup_insert_eq. eauto.
Qed.

(** What is saved is the history of every master. *)
Lemma add_saved s ro c P :
  masterConversations (addMessageToConversation ro c s) ≫= (.!! P) =
  (λ _, history (addMessageToConversation ro c s) P)
    <$> conversations (addMessageToConversation ro c s) !! P.
Proof.
  rewrite add_unfold. unfold history.
  destruct (conversations s !! currentMaster s) as [r|] eqn:E; simpl;
    rewrite lookup_fmap;
    by destruct (_ !! P).
Qed.

Lemma add_set_pending s ro c p :
  addMessageToConversation ro c (set_pending p s) =
  set_pending p (addMessageToConversation ro c s).
Proof.
  rewrite !add_unfold. simpl.
  by destruct (conversations s !! currentMaster s).
Qed.

Lemma add_set_isStreaming s ro c b :
  addMessageToConversation ro c (set_isStreaming b s) =
  set_isStreaming b (addMessageToConversation ro c s).
Proof.
  rewrite !add_unfold. simpl.
  by destruct (conversations s !! currentMaster s).
Qed.

Lemma append_all_snoc ms m s :
  append_all (ms ++ [m]) s =
  addMessageToConversation (role m) (content m) (append_all ms s).
Proof. unfold append_all. by rewrite foldl_snoc. Qed.

Lemma append_all_facts ms s :
  wf s →
  wf (append_all ms s) ∧
  currentMaster (append_all ms s) = currentMaster s ∧
  ∀ P, history (append_all ms s) P =
       if decide (P = currentMaster s) then history s P ++ ms
       else history s P.
Proof.
  intros Hwf. induction ms as [|m ms IH] using rev_ind.
  - split; [done|]. split; [done|].
    intros P. case_decide; by rewrite ?app_nil_r.
  - destruct IH as (Hwf' & Hcur & Hh). rewrite append_all_snoc.
    split; [by apply wf_add|].
    split; [by rewrite (proj1 (add_fields _ _ _))|].
    intros P. rewrite history_add, Hcur, Hh by done.
    destruct m as [ro c]; simpl.
    case_decide; by rewrite <- ?(assoc_L (++)).
Qed.

(** Reading through [getCurrentMessages] gives the history of the current
    master. *)
Lemma read_history_eq s : read_history s = history s (currentMaster s).
Proof.
  unfold read_history, getCurrentMessages, history.
  destruct (conversations s !! currentMaster s) as [r|]; [done|].
  unfold alloc, deref. simpl. by rewrite list_lookup_middle.
Qed.

Lemma clear_facts s :
  wf s → currentMaster s ∈ MASTERS →
  let s' := (clearConversation s).1 in
  wf s' ∧ (clearConversation s).2 = Normal () ∧
  currentMaster s' = currentMaster s ∧
  history s' (currentMaster s) = [] ∧
  (∀ P, P ≠ currentMaster s → history s' P = history s P) ∧
  masterConversations s' = Some (deref s' <$> conversations s').
Proof.
  intros [Hb Hinj] Hm. unfold clearConversation.
  rewrite bool_decide_eq_true_2 by done. simpl.
  repeat split.
  - intros P r E. simpl in *. rewrite length_app. simpl.
    destruct (decide (currentMaster s = P)) as [<-|HP].
    + rewrite lookup_insert_eq in E. simplify_eq. lia.
    + rewrite lookup_insert_ne in E by done. apply Hb in E. lia.
  - intros P P' r E1 E2. simpl in *.
    destruct (decide (currentMaster s = P)) as [<-|HP],
             (decide (currentMaster s = P')) as [<-|HP']; [done|..].
    + rewrite lookup_insert_eq in E1. rewrite lookup_insert_ne in E2 by done.
      simplify_eq. apply Hb in E2. lia.
    + rewrite lookup_insert_eq in E2. rewrite lookup_insert_ne in E1 by done.
      simplify_eq. apply Hb in E1. lia.
    + rewrite lookup_insert_ne in E1, E2 by done. eauto.
  - unfold history, deref. simpl.
    by rewrite lookup_insert_eq, list_lookup_middle.
  - intros P HP. unfold history, deref. simpl.
    rewrite lookup_insert_ne by done.
    destruct (conversations s !! P) as [r|] eqn:E; [|done].
    apply Hb in E. by rewrite lookup_app_l.
Qed.

End store_facts.

(** ** The chat turn *)

Section turn_facts.
Context `{Platform}.

Implicit Types (s : state) (t : turn) (cs : list callback).

Lemma fragments_app cs cs' :
  fragments (cs ++ cs') = fragments cs ++ fragments cs'.
Proof. unfold fragments. by rewrite fmap_app, join_app. Qed.

Lemma fragments_complete : fragments [OnComplete] = [].
Proof. reflexivity. Qed.

Lemma set_pending_id s t : pending s = Some t → set_pending (Some t) s = s.
Proof. destruct s. simpl. by intros ->. Qed.

(** Progress calls only grow [fullResponse]. *)
Lemma deliver_progress cs s t :
  pending s = Some t → Forall is_progress cs →
  foldl deliver s cs =
  set_pending (Some {| fullResponse := fullResponse t ++ fragments cs;
                       posted := posted t; loop := loop t |}) s.
Proof.
  revert s t. induction cs as [|c cs IH]; intros s t Hp Hcs.
  - simpl. rewrite app_nil_r. destruct t. by rewrite set_pending_id.
  - apply Forall_cons in Hcs as [Hc Hcs]. simpl foldl.
    destruct c as [v| | |]; try done.
    + erewrite IH; [|simpl; by rewrite Hp|done]. simpl.
      change (fragments (OnChunk v :: cs)) with (ToString v ++ fragments cs).
      by rewrite (assoc_L (++)).
    + simpl deliver. by rewrite (IH _ _ Hp Hcs).
Qed.

Lemma committed_set_pending text p s :
  committed text (set_pending p s) = committed text s.
Proof. unfold committed. by rewrite add_set_pending. Qed.

Lemma committed_fields text s :
  currentMaster (committed text s) = currentMaster s ∧
  isStreaming (committed text s) = false ∧
  pending (committed text s) = None ∧
  toasts (committed text s) = toasts s.
Proof.
  unfold committed. simpl.
  destruct (add_fields s (lit "assistant") text) as (? & ? & ? & ?).
  done.
Qed.

Lemma history_committed text s P :
  wf s →
  history (committed text s) P =
  if decide (P = currentMaster s)
  then history s P ++ [{| role := lit "assistant"; content := text |}]
  else history s P.
Proof. intros Hwf. by rewrite <- (history_add s _ _ P). Qed.

Lemma wf_committed text s : wf s → wf (committed text s).
Proof. intros Hwf. by apply (wf_add s (lit "assistant") text) in Hwf. Qed.

(** An iteration that goes on to the next. *)
Lemma resume_continue s t iteration cs l :
  pending s = Some t → iteration (loop t) = (cs, Some l) →
  Forall is_progress cs →
  resume s iteration =
  set_pending (Some {| fullResponse := fullResponse t ++ fragments cs;
                       posted := posted t; loop := l |}) s.
Proof.
  intros Hp Hi Hcs. unfold resume. rewrite Hp, Hi.
  by rewrite (deliver_progress _ _ _ Hp Hcs).
Qed.

(** An iteration that ends in [onComplete]. *)
Lemma resume_complete s t iteration cs :
  pending s = Some t → iteration (loop t) = (cs ++ [OnComplete], None) →
  Forall is_progress cs →
  resume s iteration = committed (fullResponse t ++ fragments cs) s.
Proof.
  intros Hp Hi Hcs. unfold resume. rewrite Hp, Hi, foldl_snoc.
  rewrite (deliver_progress _ _ _ Hp Hcs). simpl.
  rewrite add_set_pending. reflexivity.
Qed.

Lemma resume_idle s iteration : pending s = None → resume s iteration = s.
Proof. intros Hp. unfold resume. by rewrite Hp. Qed.

Lemma run_reads_idle s values :
  pending s = None → run s (Read <$> values) = s.
Proof.
  intros Hp. induction values as [|v values IH]; [done|].
  simpl. unfold run in IH. by rewrite resume_idle.
Qed.

Lemma read_value_shape l value :
  ∃ cs0, Forall is_progress cs0 ∧
    ((∃ l', read_value l value = (cs0, Some l')) ∨
     read_value l value = (cs0 ++ [OnComplete], None)).
Proof.
  rewrite read_value_lines.
  destruct (TextDecoder_decode (decoder l) value) as [d text].
  destruct (for_lines _) as [cs r] eqn:E.
  destruct (for_lines_shape _ _ _ E) as (cs0 & H0 & ->).
  exists cs0. split; [done|].
  destruct r; [by right|left]. rewrite app_nil_r. eauto.
Qed.

Lemma read_values_shape l values :
  ∃ cs0, Forall is_progress cs0 ∧
    ((∃ l', read_values l values = (cs0, Some l')) ∨
     read_values l values = (cs0 ++ [OnComplete], None)).
Proof.
  revert l. induction values as [|v values IH]; intros l; simpl.
  - exists []. split; [done|]. left. eauto.
  - destruct (read_value_shape l v) as (cs0 & H0 & [[l' E]|E]); rewrite E.
    + destruct (IH l') as (cs1 & H1 & [[l'' E']|E']); rewrite E';
        exists (cs0 ++ cs1); (split; [by apply Forall_app|]).
      * left. eauto.
      * right. by rewrite (assoc_L (++)).
    + exists cs0. split; [done|]. by right.
Qed.

(** The state after the values of a body have been read. *)
Lemma run_reads s t values :
  pending s = Some t →
  run s (Read <$> values) =
  match read_values (loop t) values with
  | (cs, Some l) =>
      set_pending (Some {| fullResponse := fullResponse t ++ fragments cs;
                           posted := posted t; loop := l |}) s
  | (cs, None) => committed (fullResponse t ++ fragments cs) s
  end.
Proof.
  revert s t. induction values as [|v values IH]; intros s t Hp.
  - simpl. rewrite app_nil_r. destruct t. by rewrite set_pending_id.
  - simpl. change (foldl step ?a ?b) with (run a b).
    destruct (read_value_shape (loop t) v) as (cs0 & H0 & [[l' E]|E]).
    + rewrite (resume_continue s t _ cs0 l' Hp E H0), E.
      erewrite IH by reflexivity. simpl.
      destruct (read_values l' values) as [cs1 [l''|]].
      * by rewrite fragments_app, (assoc_L (++)).
      * by rewrite committed_set_pending, fragments_app, (assoc_L (++)).
    + rewrite (resume_complete s t _ cs0 Hp E H0), E.
      rewrite run_reads_idle by apply committed_fields.
      by rewrite fragments_app, fragments_complete, app_nil_r.
Qed.

(** The state after a body has been read to its end: the turn is
    committed with the text of the [onChunk] calls the loop makes. *)
Lemma run_body s t values :
  pending s = Some t →
  run s ((Read <$> values) ++ [ReadDone]) =
  committed (fullResponse t ++ fragments (read_all (loop t) values Closed)) s.
Proof.
  intros Hp. unfold run. rewrite foldl_snoc.
  change (foldl step ?a ?b) with (run a b).
  rewrite (run_reads s t values Hp), read_all_values.
  destruct (read_values_shape (loop t) values)
    as (cs0 & H0 & [[l' E]|E]); rewrite E; simpl.
  - erewrite (resume_complete _ _ _ []); [|reflexivity|reflexivity|done].
    simpl. by rewrite committed_set_pending, fragments_app, !app_nil_r.
  - rewrite resume_idle by apply committed_fields.
    by rewrite app_nil_r, fragments_app, fragments_complete, app_nil_r.
Qed.

(** The text of the [onChunk] calls is the text of the envelopes that
    parse. *)
Lemma handle_line_data line :
  handle_line line =
  if is_terminal line then ([OnComplete], true)
  else if is_data_line line then
    match JSON_parse (payload line) with
    | None => ([ConsoleError], false)
    | Some json =>
        match result_delta_content json with
        | Throw => ([ConsoleError], false)
        | Normal (Some c) =>
            if truthy (Some c) then ([OnChunk c], false) else ([], false)
        | Normal None => ([], false)
        end
    end
  else ([], false).
Proof.
  unfold handle_line, is_terminal, is_data_line, payload.
  destruct (startsWith line (lit "data: ")) eqn:E.
  - rewrite (data_line_truthy _ E). simpl. by case_match.
  - by rewrite andb_false_r.
Qed.

Lemma fragments_cons c cs :
  fragments (c :: cs) = fragments [c] ++ fragments cs.
Proof. apply (fragments_app [c] cs). Qed.

Lemma handle_line_fragment line json :
  is_terminal line = false → is_data_line line = true →
  JSON_parse (payload line) = Some json →
  ∃ cs, handle_line line = (cs, false) ∧ fragments cs = content_fragment json.
Proof.
  intros Ht Hd Hj. rewrite handle_line_data, Ht, Hd, Hj.
  unfold content_fragment.
  destruct (result_delta_content json) as [[c|]|]; [|by eexists..].
  destruct (truthy (Some c)); [|by eexists].
  eexists. split; [done|]. unfold fragments. simpl. apply app_nil_r.
Qed.

Lemma handle_line_no_fragment line :
  is_terminal line = false →
  (is_data_line line = true → JSON_parse (payload line) = None) →
  ∃ cs, handle_line line = (cs, false) ∧ fragments cs = [].
Proof.
  intros Ht Hj. rewrite handle_line_data, Ht.
  destruct (is_data_line line); [|by eexists].
  rewrite Hj by done. by eexists.
Qed.

Lemma fragments_for_lines L :
  fragments (for_lines L).1 = mjoin (content_fragment <$> parsed_events L).
Proof.
  induction L as [|line L IH]; [done|]. cbn [for_lines parsed_events].
  destruct (is_terminal line) eqn:Ht.
  { by rewrite handle_line_data, Ht. }
  destruct (for_lines L) as [cs' r']. cbn [fst] in IH.
  destruct (is_data_line line) eqn:Hd.
  - destruct (JSON_parse (payload line)) as [json|] eqn:Hj.
    + destruct (handle_line_fragment _ _ Ht Hd Hj) as (cs & -> & Hcs).
      cbn [fst]. by rewrite fragments_app, IH, Hcs.
    + destruct (handle_line_no_fragment line Ht) as (cs & -> & Hcs); [done|].
      cbn [fst]. by rewrite fragments_app, IH, Hcs.
  - destruct (handle_line_no_fragment line Ht) as (cs & -> & Hcs);
      [congruence|].
    cbn [fst]. by rewrite fragments_app, IH, Hcs.
Qed.

Lemma fragments_text_callbacks text :
  fragments (text_callbacks text Closed) =
  mjoin (content_fragment <$> parsed_events (complete_lines text)).
Proof.
  unfold text_callbacks. rewrite <- fragments_for_lines.
  destruct (for_lines (complete_lines text)) as [cs [|]]; simpl.
  - by rewrite app_nil_r.
  - by rewrite fragments_app, fragments_complete, app_nil_r.
Qed.

End turn_facts.

(** ** Well-formed states *)

Section wf_facts.
Context `{Platform}.

Implicit Types (s : state).

Lemma insert_fresh_ok (c : gmap jsstring nat) (n : nat) (k : jsstring) :
  (∀ P r, c !! P = Some r → r < n) →
  (∀ P P' r, c !! P = Some r → c !! P' = Some r → P = P') →
  (∀ P r, <[k:=n]> c !! P = Some r → r < S n) ∧
  (∀ P P' r, <[k:=n]> c !! P = Some r → <[k:=n]> c !! P' = Some r → P = P').
Proof.
  intros Hb Hinj. split.
  - intros P r E. destruct (decide (k = P)) as [<-|HP].
    + rewrite lookup_insert_eq in E. simplify_eq. lia.
    + rewrite lookup_insert_ne in E by done. apply Hb in E. lia.
  - intros P P' r E1 E2.
    destruct (decide (k = P)) as [<-|HP], (decide (k = P')) as [<-|HP'];
      [done|..].
    + rewrite lookup_insert_eq in E1. rewrite lookup_insert_ne in E2 by done.
      simplify_eq. apply Hb in E2. lia.
    + rewrite lookup_insert_eq in E2. rewrite lookup_insert_ne in E1 by done.
      simplify_eq. apply Hb in E1. lia.
    + rewrite lookup_insert_ne in E1, E2 by done. eauto.
Qed.

Lemma wf_alloc_insert s a k :
  wf s → wf (set_conversations <[k := (alloc a s).2]> (alloc a s).1).
Proof.
  intros [Hb Hinj]. unfold wf. simpl. rewrite length_app, Nat.add_1_r.
  by apply insert_fresh_ok.
Qed.

Lemma wf_alloc s a : wf s → wf (alloc a s).1.
Proof.
  intros [Hb Hinj]. split; [|done]. simpl. intros P r E.
  rewrite length_app. apply Hb in E. lia.
Qed.

Lemma parse_conversations_ok saved h :
  (∀ P r, (parse_conversations saved h).2 !! P = Some r →
          r < length (parse_conversations saved h).1) ∧
  (∀ P P' r, (parse_conversations saved h).2 !! P = Some r →
             (parse_conversations saved h).2 !! P' = Some r → P = P').
Proof.
  unfold parse_conversations.
  induction (map_to_list saved) as [|[k a] l IH]; simpl.
  - split; intros ??; by rewrite lookup_empty.
  - destruct (foldr _ _ l) as [h' c]. simpl in *. destruct IH.
    rewrite length_app, Nat.add_1_r. by apply insert_fresh_ok.
Qed.

Lemma wf_loadConversations s : wf s → wf (loadConversations s).
Proof.
  intros Hwf. unfold loadConversations.
  set (s1 := match masterConversations s with Some _ => _ | None => s end).
  assert (wf s1) as Hwf1.
  { subst s1. destruct (masterConversations s) as [saved|]; [|done].
    pose proof (parse_conversations_ok saved (heap s)) as Hok.
    by destruct (parse_conversations saved (heap s)) as [h c]. }
  destruct (conversations s1 !! currentMaster s1); [done|].
  by apply (wf_alloc_insert s1 []).
Qed.

Lemma wf_ChatPage_new saved : wf (ChatPage_new saved).
Proof.
  apply wf_loadConversations. split; intros ??; simpl; by rewrite lookup_empty.
Qed.

Lemma wf_deliver s c : wf s → wf (deliver s c).
Proof.
  intros Hwf. destruct c as [v| |m|]; simpl; try done.
  destruct (pending s) as [t|]; [|done].
  by apply (wf_add s (lit "assistant") (fullResponse t)) in Hwf.
Qed.

Lemma wf_resume s iteration : wf s → wf (resume s iteration).
Proof.
  intros Hwf. unfold resume. destruct (pending s) as [t|]; [|done].
  destruct (iteration (loop t)) as [cs next].
  assert (wf (foldl deliver s cs)) as Hwf'; [|done].
  revert s Hwf. clear t. induction cs as [|c cs IH]; intros s Hwf; [done|].
  simpl. by apply IH, wf_deliver.
Qed.

Lemma wf_sendMessage v s : wf s → wf (sendMessage v s).1.
Proof.
  intros Hwf. unfold sendMessage.
  destruct (negb _ || _); [done|].
  pose proof (wf_add s (lit "user") (trim v) Hwf) as Hwf1.
  case_bool_decide; [|done].
  unfold getCurrentMessages.
  destruct (conversations _ !! _) as [r|]; [done|].
  by apply (wf_alloc (set_isStreaming true _) []).
Qed.

Lemma wf_clearConversation s : wf s → wf (clearConversation s).1.
Proof.
  intros Hwf. unfold clearConversation. case_bool_decide; [|done].
  by apply (wf_alloc_insert s [] (currentMaster s)) in Hwf.
Qed.

Lemma wf_switchMaster m s : wf s → wf (switchMaster m s).1.
Proof.
  intros Hwf. unfold switchMaster.
  destruct (isStreaming s); [done|]. by case_bool_decide.
Qed.

(** Well-formedness is an invariant of the page. *)
Lemma wf_step s e : wf s → wf (step s e).
Proof.
  intros Hwf. destruct e; simpl.
  - by apply wf_sendMessage.
  - by apply wf_switchMaster.
  - by apply wf_clearConversation.
  - done.
  - by apply wf_resume.
  - by apply wf_resume.
  - by apply wf_resume.
  - apply wf_ChatPage_new.
Qed.

Lemma wf_run s es : wf s → wf (run s es).
Proof.
  revert s. induction es as [|e es IH]; intros s Hwf; [done|].
  simpl. by apply IH, wf_step.
Qed.

Lemma sendMessage_busy v s :
  isStreaming s = true → sendMessage v s = (s, Normal ()).
Proof. intros Hs. unfold sendMessage. by rewrite Hs, orb_true_r. Qed.

(** A message that is accepted: the user message is appended, and the
    call is pending with the history as its body. *)
Lemma sendMessage_start v s :
  isStreaming s = false → str_truthy (trim v) = true →
  currentMaster s ∈ MASTERS →
  let s1 := addMessageToConversation (lit "user") (trim v) s in
  sendMessage v s =
  (set_pending
     (Some {| fullResponse := [];
              posted := {| character := currentMaster s;
                           messages := history s1 (currentMaster s);
                           stream := true; temperature := (1 # 2)%Q |};
              loop := loop_init |})
     (set_isStreaming true s1),
   Normal ()).
Proof.
  intros Hs Hv Hm. unfold sendMessage. rewrite Hs, Hv. cbn [negb orb].
  destruct (add_fields s (lit "user") (trim v)) as (Hcur & _).
  destruct (add_has_array s (lit "user") (trim v)) as [r Hr].
  unfold getCurrentMessages, history.
  cbn [currentMaster conversations set_isStreaming].
  rewrite Hcur, bool_decide_eq_true_2 by done.
  rewrite Hr. cbn [currentMaster set_isStreaming]. by rewrite Hcur.
Qed.

(** The handler of "clear all conversations" leaves every history of the
    page as it was; they are empty once the page has been loaded again. *)
Lemma clearAll_history s P :
  history (clearAllConversations s) P = history s P.
Proof. reflexivity. Qed.

Lemma history_new_empty P : history (ChatPage_new None) P = [].
Proof.
  unfold ChatPage_new. generalize (lit "tocqueville"). intros k.
  unfold loadConversations, history, deref. simpl. rewrite lookup_empty. simpl.
  destruct (decide (P = k)) as [->|HP].
  - by rewrite lookup_insert_eq.
  - by rewrite lookup_insert_ne, lookup_empty.
Qed.

Lemma clearAll_reload_history s P :
  history (run s [ClearAll; Reload]) P = [].
Proof. apply history_new_empty. Qed.

End wf_facts.

(** * The stream decoder *)

Section decoder_claims.
Context `{Platform}.

Implicit Types (s : state) (t : turn) (line : jsstring).

Lemma remainder_terminated text : remainder (text ++ [LF]) = [].
Proof.
  destruct (lines_app text [LF]) as [_ ->].
  apply (split_snoc_inv _ [remainder text ++ []] []).
  by rewrite split_app_noLF by apply remainder_noLF.
Qed.

Lemma complete_lines_unterminated text r :
  LF ∉ r → text = [] ∨ (∃ text', text = text' ++ [LF]) →
  complete_lines (text ++ r) = complete_lines text.
Proof.
  intros Hr Ht. destruct (lines_app text r) as [-> _].
  assert (remainder text = []) as ->.
  { destruct Ht as [->|[text' ->]]; [done|apply remainder_terminated]. }
  simpl. by rewrite (complete_lines_noLF r Hr), app_nil_r.
Qed.

Lemma handle_line_terminal line :
  startsWith line (lit "data: ") = true →
  trim (slice 6 line) = lit "[DONE]" →
  handle_line line = ([OnComplete], true).
Proof.
  intros Hd Hp. rewrite handle_line_data.
  unfold is_terminal, is_data_line, payload. rewrite Hd, Hp.
  unfold str_eqb. by rewrite bool_decide_eq_true_2.
Qed.

Lemma handle_line_malformed line :
  startsWith line (lit "data: ") = true →
  trim (slice 6 line) ≠ lit "[DONE]" →
  JSON_parse (trim (slice 6 line)) = None →
  handle_line line = ([ConsoleError], false) ∧ is_terminal line = false.
Proof.
  intros Hd Hp Hj. rewrite handle_line_data.
  unfold is_terminal, is_data_line, payload. rewrite Hd, Hj.
  apply str_eqb_neq in Hp. by rewrite Hp.
Qed.

Lemma parsed_events_skip line before after :
  is_terminal line = false →
  (is_data_line line = true → JSON_parse (payload line) = None) →
  parsed_events (before ++ line :: after) = parsed_events (before ++ after).
Proof.
  intros Ht Hj. induction before as [|l before IH]; simpl.
  - rewrite Ht. destruct (is_data_line line); [|done]. by rewrite Hj.
  - by rewrite IH.
Qed.

Lemma for_lines_skip line before after c :
  handle_line line = ([c], false) → fragments [c] = [] →
  fragments (for_lines (before ++ line :: after)).1 =
    fragments (for_lines (before ++ after)).1 ∧
  (for_lines (before ++ line :: after)).2 = (for_lines (before ++ after)).2.
Proof.
  intros Hl Hc. rewrite !for_lines_app. cbn [for_lines]. rewrite Hl.
  destruct (for_lines before) as [cs1 [|]]; [done|].
  destruct (for_lines after) as [cs2 r2]. simpl.
  by rewrite !fragments_app, (fragments_cons c cs2), Hc.
Qed.

(** The state a body leaves, in terms of the envelopes its text holds. *)
Lemma run_body_events s t values :
  pending s = Some t → loop t = loop_init →
  run s ((Read <$> values) ++ [ReadDone]) =
  committed
    (fullResponse t ++
     mjoin (content_fragment <$>
              parsed_events (complete_lines (decoded (concat values))))) s.
Proof.
  intros Hp Hl. rewrite (run_body s t values Hp), Hl.
  change (read_all loop_init values Closed) with (streamMessage values Closed).
  by rewrite streamMessage_text, fragments_text_callbacks.
Qed.

(** C2: a line that does not start with ["data: "] (a blank line among
    them) makes no call at all; a line that starts with it and whose
    trimmed payload is ["[DONE]"] makes the call of [onComplete] and
    returns from the function, so that the lines after it in the same
    value, the values after it and the end of the body make no call, and
    the page is not changed by them. *)
Theorem C2_data_prefix_and_terminal :
  (∀ line, startsWith line (lit "data: ") = false →
           handle_line line = ([], false)) ∧
  (∀ line before after cs,
     startsWith line (lit "data: ") = true →
     trim (slice 6 line) = lit "[DONE]" →
     for_lines before = (cs, false) →
     handle_line line = ([OnComplete], true) ∧
     for_lines (before ++ line :: after) = (cs ++ [OnComplete], true)) ∧
  (∀ l value cs values e,
     read_value l value = (cs, None) →
     read_all l (value :: values) e = cs) ∧
  (∀ s value, pending s = None → step s (Read value) = s).
Proof.
  split; [|split; [|split]].
  - intros line Hd. unfold handle_line. by rewrite Hd, andb_false_r.
  - intros line before after cs Hd Hp Hb.
    pose proof (handle_line_terminal line Hd Hp) as Hl.
    split; [done|]. rewrite for_lines_app, Hb. cbn [for_lines].
    by rewrite Hl.
  - intros l value cs values e Hr. simpl. by rewrite Hr.
  - intros s value Hp. by apply resume_idle.
Qed.

(** C5: a data line whose payload does not parse makes one call of
    [console.error] and the loop goes on; with or without that line the
    envelopes, the text of the [onChunk] calls and the return of the
    function are the same; and the text a body commits is the
    concatenation, in order, of the content of the envelopes that
    parse. *)
Theorem C5_malformed_payload_dropped line before after values s t :
  startsWith line (lit "data: ") = true →
  trim (slice 6 line) ≠ lit "[DONE]" →
  JSON_parse (trim (slice 6 line)) = None →
  pending s = Some t → loop t = loop_init →
  handle_line line = ([ConsoleError], false) ∧
  parsed_events (before ++ line :: after) = parsed_events (before ++ after) ∧
  fragments (for_lines (before ++ line :: after)).1 =
    fragments (for_lines (before ++ after)).1 ∧
  (for_lines (before ++ line :: after)).2 = (for_lines (before ++ after)).2 ∧
  run s ((Read <$> values) ++ [ReadDone]) =
  committed
    (fullResponse t ++
     mjoin (content_fragment <$>
              parsed_events (complete_lines (decoded (concat values))))) s.
Proof.
  intros Hd Hp Hj Hs Hl.
  destruct (handle_line_malformed line Hd Hp Hj) as [Hh Ht].
  split; [done|]. split; [by apply parsed_events_skip|].
  destruct (for_lines_skip line before after ConsoleError Hh eq_refl).
  split; [done|]. split; [done|]. by apply run_body_events.
Qed.

(** C6: two bodies that carry the same bytes make the same calls in the
    same order, however the bytes are cut into values, and leave the loop
    in the same state. *)
Theorem C6_chunking_invariance (values1 values2 : list (list byte)) e :
  concat values1 = concat values2 →
  streamMessage values1 e = streamMessage values2 e ∧
  read_values loop_init values1 = read_values loop_init values2.
Proof.
  intros E. split.
  - by rewrite !streamMessage_text, E.
  - rewrite !read_values_text by (by intros ?%not_elem_of_nil).
    simpl. by rewrite E.
Qed.

(** C10: when the text of a body is made of terminated lines followed by
    a remainder without a line terminator, the calls made are those of the
    terminated lines alone, ending in [onComplete]; the remainder adds
    nothing to the text that is committed, and closing the body commits
    the accumulated text whatever the buffer holds. *)
Theorem C10_unterminated_remainder_discarded values text r s t :
  decoded (concat values) = text ++ r →
  LF ∉ r →
  text = [] ∨ (∃ text', text = text' ++ [LF]) →
  pending s = Some t → loop t = loop_init →
  streamMessage values Closed = text_callbacks text Closed ∧
  run s ((Read <$> values) ++ [ReadDone]) =
    committed
      (fullResponse t ++
       mjoin (content_fragment <$> parsed_events (complete_lines text))) s ∧
  (∀ b, step (with_buffer b s) ReadDone = committed (fullResponse t) s).
Proof.
  intros Hv Hr Ht Hs Hl.
  pose proof (complete_lines_unterminated text r Hr Ht) as Hc.
  split; [|split].
  - rewrite streamMessage_text, Hv. unfold text_callbacks. by rewrite Hc.
  - by rewrite (run_body_events s t values Hs Hl), Hv, Hc.
  - intros b. simpl. unfold with_buffer. rewrite Hs. simpl.
    erewrite (resume_complete _ _ _ []); [|reflexivity|reflexivity|done].
    simpl. by rewrite committed_set_pending, app_nil_r.
Qed.

End decoder_claims.

(** * The chat turn and the conversation store *)

Section page_claims.
Context `{Platform}.

Implicit Types (s : state) (t : turn) (P : jsstring).

Lemma handle_event p json c :
  is_terminal (data_line p) = false → payload (data_line p) = p →
  JSON_parse p = Some json →
  result_delta_content json = Normal (Some (JStr c)) →
  handle_line (data_line p) =
  (if str_truthy c then [OnChunk (JStr c)] else [], false).
Proof.
  intros Ht Hp Hj Hc. rewrite handle_line_data, Ht.
  assert (is_data_line (data_line p) = true) as -> by (vm_compute; reflexivity).
  rewrite Hp, Hj, Hc. change (truthy (Some (JStr c))) with (str_truthy c).
  by destruct (str_truthy c).
Qed.

Lemma wire_lines :
  complete_lines wire_text =
  [data_line event1; []; data_line event2; []; data_line event3; [];
   data_line (lit "[DONE]"); []].
Proof. vm_compute. reflexivity. Qed.

(** The calls the body of the scenario makes. *)
Lemma wire_calls json1 json2 json3 :
  JSON_parse event1 = Some json1 →
  result_delta_content json1 = Normal (Some (JStr [])) →
  JSON_parse event2 = Some json2 →
  result_delta_content json2 = Normal (Some (JStr (lit "A"))) →
  JSON_parse event3 = Some json3 →
  result_delta_content json3 = Normal (Some (JStr (lit "B"))) →
  for_lines (complete_lines wire_text) =
  ([OnChunk (JStr (lit "A")); OnChunk (JStr (lit "B")); OnComplete], true).
Proof.
  intros Hp1 Hc1 Hp2 Hc2 Hp3 Hc3. rewrite wire_lines. cbn [for_lines].
  rewrite (handle_event event1 json1 []), (handle_event event2 json2 (lit "A")),
    (handle_event event3 json3 (lit "B"));
    try done; vm_compute; reflexivity.
Qed.

(** C1: on a page whose current master is tocqueville and that is not
    streaming, a message that is not blank is submitted and the body of
    the response, in whatever values it arrives, is the text of the three
    delta events (an empty content, then [A] and [B], the last with finish
    reason ["stop"]) and the terminal line. Then the history of
    tocqueville is what it was followed by the user message and an
    assistant message of content ["AB"]: two messages more; and the page is
    no longer streaming. *)
Theorem C1_scenario_commits_AB s input_value values json1 json2 json3 :
  wf s → isStreaming s = false → currentMaster s = lit "tocqueville" →
  str_truthy (trim input_value) = true →
  decoded (concat values) = wire_text →
  JSON_parse event1 = Some json1 →
  result_delta_content json1 = Normal (Some (JStr [])) →
  JSON_parse event2 = Some json2 →
  result_delta_content json2 = Normal (Some (JStr (lit "A"))) →
  JSON_parse event3 = Some json3 →
  result_delta_content json3 = Normal (Some (JStr (lit "B"))) →
  let s' := run s (Send input_value :: (Read <$> values)) in
  history s' (lit "tocqueville") =
    history s (lit "tocqueville") ++
    [user_message (trim input_value); assistant_message (lit "AB")] ∧
  length (history s' (lit "tocqueville")) =
    length (history s (lit "tocqueville")) + 2 ∧
  isStreaming s' = false ∧ pending s' = None.
Proof.
  intros Hwf Hs Hcur Hv Hdec Hp1 Hc1 Hp2 Hc2 Hp3 Hc3 s'.
  assert (currentMaster s ∈ MASTERS) as Hm.
  { rewrite Hcur. apply list_elem_of_singleton. reflexivity. }
  assert (s' = committed (lit "AB")
                 (set_isStreaming true
                    (addMessageToConversation (lit "user")
                       (trim input_value) s))) as ->.
  { subst s'. unfold run. cbn [foldl step].
    rewrite (sendMessage_start input_value s Hs Hv Hm). cbn [fst].
    change (foldl step ?a ?b) with (run a b).
    erewrite run_reads by reflexivity. cbn [loop fullResponse].
    rewrite read_values_text by (by intros ?%not_elem_of_nil).
    unfold decoded in Hdec.
    destruct (TextDecoder_decode _ (concat values)) as [d text].
    simpl in Hdec. subst text. cbn [buffer loop_init app].
    rewrite (wire_calls json1 json2 json3) by done.
    by rewrite committed_set_pending. }
  pose proof (wf_add s (lit "user") (trim input_value) Hwf) as Hwf1.
  destruct (add_fields s (lit "user") (trim input_value)) as (Hcur1 & _).
  assert (history
            (committed (lit "AB")
               (set_isStreaming true
                  (addMessageToConversation (lit "user") (trim input_value) s)))
            (lit "tocqueville") =
          history s (lit "tocqueville") ++
          [user_message (trim input_value); assistant_message (lit "AB")])
    as Hh.
  { rewrite history_committed by done. cbn [currentMaster set_isStreaming].
    rewrite Hcur1, Hcur, decide_True by done.
    change (history (set_isStreaming true ?x) ?P) with (history x P).
    rewrite history_add, Hcur, decide_True by done.
    by rewrite <- (assoc_L (++)). }
  split; [done|]. split; [by rewrite Hh, length_app|].
  split; apply committed_fields.
Qed.

(** C3: on a well-formed store, reading after a sequence of appends gives
    the history there was followed by the appended messages in order, so
    exactly those messages when there was none; clearing the current
    master (one of the table, for which the dialog exists) leaves it with
    an empty history and every other master with the history it had; and
    a master without a property reads as the empty sequence. *)
Theorem C3_append_read_clear s ms :
  wf s →
  read_history (append_all ms s) = history s (currentMaster s) ++ ms ∧
  (history s (currentMaster s) = [] → read_history (append_all ms s) = ms) ∧
  (currentMaster s ∈ MASTERS →
   read_history (clearConversation s).1 = [] ∧
   ∀ P, P ≠ currentMaster s →
        history (clearConversation s).1 P = history s P) ∧
  (conversations s !! currentMaster s = None → read_history s = []).
Proof.
  intros Hwf. destruct (append_all_facts ms s Hwf) as (_ & Hcur & Hh).
  assert (read_history (append_all ms s) = history s (currentMaster s) ++ ms)
    as Hr.
  { by rewrite read_history_eq, Hcur, Hh, decide_True. }
  split; [done|]. split; [by intros E; rewrite Hr, E|]. split.
  - intros Hm. destruct (clear_facts s Hwf Hm) as (_ & _ & Hc & He & Ho & _).
    split; [by rewrite read_history_eq, Hc|done].
  - intros E. rewrite read_history_eq. unfold history. by rewrite E.
Qed.

(** C4, as the code has it: while the page is streaming, [sendMessage]
    returns at once, normally, and the state it leaves is the state it
    found: the history, the accumulated text, the state of the pending
    call and the notifications are what they were. *)
Theorem C4_second_submit_ignored s input_value :
  isStreaming s = true →
  sendMessage input_value s = (s, Normal ()) ∧
  step s (Send input_value) = s ∧
  ¬ signals_condition input_value s.
Proof.
  intros Hs. pose proof (sendMessage_busy input_value s Hs) as E.
  split; [done|]. split; [simpl; by rewrite E|].
  unfold signals_condition. rewrite E. simpl. by intros [?|?].
Qed.

(** C7: when the body is closed, the turn that is pending is committed
    with the text accumulated so far, empty when no fragment arrived: an
    assistant message with that text ends the history of the current
    master, the page is no longer streaming, and no notification is
    shown. A value that holds just the terminal line does the same. A body
    that is closed makes progress calls followed by one [onComplete],
    never [onError], whether the terminal line was in it or not. *)
Theorem C7_close_without_sentinel_commits s t values :
  wf s → pending s = Some t →
  step s ReadDone = committed (fullResponse t) s ∧
  history (step s ReadDone) (currentMaster s) =
    history s (currentMaster s) ++ [assistant_message (fullResponse t)] ∧
  isStreaming (step s ReadDone) = false ∧
  pending (step s ReadDone) = None ∧
  toasts (step s ReadDone) = toasts s ∧
  (∀ value, read_value (loop t) value = ([OnComplete], None) →
            step s (Read value) = step s ReadDone) ∧
  (∃ cs, Forall is_progress cs ∧
         streamMessage values Closed = cs ++ [OnComplete]) ∧
  run s ((Read <$> values) ++ [ReadDone]) =
    committed (fullResponse t ++ fragments (read_all (loop t) values Closed)) s.
Proof.
  intros Hwf Hp.
  assert (∀ iteration, iteration (loop t) = ([OnComplete], None) →
                       resume s iteration = committed (fullResponse t) s)
    as Hc.
  { intros iteration Hi.
    rewrite (resume_complete s t iteration [] Hp Hi) by done.
    by rewrite app_nil_r. }
  assert (step s ReadDone = committed (fullResponse t) s) as Hd.
  { by apply Hc. }
  destruct (committed_fields (fullResponse t) s) as (_ & Hi & Hn & Ht).
  rewrite Hd. split; [done|].
  split; [by rewrite history_committed, decide_True|].
  split; [done|]. split; [done|]. split; [done|].
  split; [intros value Hv; simpl; by rewrite (Hc _ Hv)|].
  split; [|by apply run_body].
  unfold streamMessage. rewrite read_all_values.
  destruct (read_values_shape loop_init values)
    as (cs0 & H0 & [[l' E]|E]); rewrite E.
  - by exists cs0.
  - exists cs0. by rewrite app_nil_r.
Qed.

(** C9, as the code has it: [getCurrentMessages] gives the array of the
    store itself when the current master has one, and then a message
    appended afterwards is read through it as its last element; when the
    master has none it gives a new empty array, which an append does not
    change. In both cases clearing afterwards leaves what is read through
    it unchanged: the store is given another array. *)
Theorem C9_history_is_the_live_array s ro c :
  wf s →
  let '(s1, r) := getCurrentMessages s in
  deref (addMessageToConversation ro c s1) r =
    match conversations s !! currentMaster s with
    | Some _ => deref s1 r ++ [{| role := ro; content := c |}]
    | None => deref s1 r
    end ∧
  deref (clearConversation s1).1 r = deref s1 r.
Proof.
  intros Hwf. unfold getCurrentMessages.
  destruct (conversations s !! currentMaster s) as [r|] eqn:E.
  - split.
    + pose proof (history_add s ro c (currentMaster s) Hwf) as Hh.
      rewrite decide_True in Hh by done. unfold history in Hh.
      assert (conversations (addMessageToConversation ro c s)
                !! currentMaster s = Some r) as Hr.
      { rewrite add_unfold, E. simpl. done. }
      by rewrite Hr, E in Hh.
    + unfold clearConversation. case_bool_decide; [|done].
      unfold deref. simpl. rewrite lookup_app_l; [done|].
      by apply (proj1 Hwf _ _ E).
  - split.
    + rewrite add_unfold. simpl. rewrite E. unfold deref. simpl.
      rewrite list_lookup_alter_ne by (rewrite length_app; simpl; lia).
      rewrite lookup_app_l; [done|]. rewrite length_app. simpl. lia.
    + unfold clearConversation. case_bool_decide; [|done].
      unfold deref. simpl. rewrite lookup_app_l; [done|].
      rewrite length_app. simpl. lia.
Qed.

End page_claims.

(** * The claims on the scenario *)

#[local] Existing Instance Browser.platform.

Lemma wf_fresh : wf Scenario.fresh.
Proof. apply wf_ChatPage_new. Qed.

Lemma wf_answered : wf Scenario.answered.
Proof. apply wf_run, wf_fresh. Qed.

Lemma wf_sent : wf Scenario.sent.
Proof. apply wf_run, wf_fresh. Qed.

Lemma wf_on_weber : wf Scenario.on_weber.
Proof. apply wf_fresh. Qed.

Lemma wf_two_masters : wf Scenario.two_masters.
Proof. apply wf_ChatPage_new. Qed.

Lemma C1_scenario_witness :
  let s' := run Scenario.fresh
              (Send (lit " Q ") :: (Read <$> Scenario.wire_in_pieces)) in
  history s' (lit "tocqueville") =
    history Scenario.fresh (lit "tocqueville") ++
    [user_message (trim (lit " Q ")); assistant_message (lit "AB")] ∧
  length (history s' (lit "tocqueville")) =
    length (history Scenario.fresh (lit "tocqueville")) + 2 ∧
  isStreaming s' = false ∧ pending s' = None.
Proof.
  eapply (C1_scenario_commits_AB Scenario.fresh (lit " Q ")
            Scenario.wire_in_pieces).
  - apply wf_fresh.
  - reflexivity.
  - reflexivity.
  - vm_compute. reflexivity.
  - vm_compute. reflexivity.
  - vm_compute. reflexivity.
  - vm_compute. reflexivity.
  - vm_compute. reflexivity.
  - vm_compute. reflexivity.
  - vm_compute. reflexivity.
  - vm_compute. reflexivity.
Defined.

Lemma C2_terminal_witness :
  handle_line (lit "event: ping") = ([], false) ∧
  handle_line [] = ([], false) ∧
  for_lines ([data_line event2] ++ lit "data:  [DONE] " :: [data_line event3])
    = ([OnChunk (JStr (lit "A"))] ++ [OnComplete], true) ∧
  read_all loop_init (Scenario.wire :: [Scenario.wire]) (Failed []) =
    [OnChunk (JStr (lit "A")); OnChunk (JStr (lit "B")); OnComplete] ∧
  step Scenario.answered (Read Scenario.wire) = Scenario.answered.
Proof.
  destruct (C2_data_prefix_and_terminal (H:=Browser.platform))
    as (Hskip & Hdone & Hreturned & Hidle).
  split; [apply Hskip; vm_compute; reflexivity|].
  split; [apply Hskip; vm_compute; reflexivity|].
  split; [apply Hdone; vm_compute; reflexivity|].
  split; [apply Hreturned; reflexivity|].
  apply Hidle. reflexivity.
Defined.

Lemma C3_store_witness :
  read_history
    (append_all [user_message (lit "x"); assistant_message (lit "y")]
       Scenario.on_weber) =
    [user_message (lit "x"); assistant_message (lit "y")] ∧
  read_history (clearConversation Scenario.two_masters).1 = [] ∧
  history (clearConversation Scenario.two_masters).1 (lit "weber") =
    [user_message (lit "W")] ∧
  read_history Scenario.on_weber = [].
Proof.
  destruct (C3_append_read_clear Scenario.on_weber
              [user_message (lit "x"); assistant_message (lit "y")]
              wf_on_weber) as (_ & Happend & _ & Hunseen).
  destruct (C3_append_read_clear Scenario.two_masters [] wf_two_masters)
    as (_ & _ & Hclear & _).
  split; [apply Happend; vm_compute; reflexivity|].
  destruct Hclear as [Hempty Hothers].
  { apply (bool_decide_unpack _). vm_compute. exact I. }
  split; [exact Hempty|].
  split; [|apply Hunseen; vm_compute; reflexivity].
  rewrite Hothers by (vm_compute; discriminate).
  vm_compute. reflexivity.
Defined.

Lemma C4_busy_witness :
  sendMessage (lit "again") Scenario.busy = (Scenario.busy, Normal ()) ∧
  step Scenario.busy (Send (lit "again")) = Scenario.busy ∧
  ¬ signals_condition (lit "again") Scenario.busy.
Proof.
  apply (C4_second_submit_ignored Scenario.busy (lit "again")).
  vm_compute. reflexivity.
Defined.

(** C4, as it is written, fails: in the middle of a turn a second submit
    is not rejected with a condition. The call returns normally and no
    notification is shown. *)
Lemma C4_no_condition_is_signalled :
  isStreaming Scenario.busy = true ∧
  ¬ rejected_with_condition (lit "again") Scenario.busy.
Proof.
  split; [vm_compute; reflexivity|].
  intros [[Hthrow|Htoast] _].
  - vm_compute in Hthrow. discriminate Hthrow.
  - apply Htoast. vm_compute. reflexivity.
Qed.

Lemma C5_garbage_witness :
  handle_line (data_line (lit "{oops")) = ([ConsoleError], false) ∧
  parsed_events ([data_line event2] ++ data_line (lit "{oops")
                 :: [data_line event3]) =
    parsed_events ([data_line event2] ++ [data_line event3]) ∧
  history
    (run Scenario.sent ((Read <$> Scenario.with_garbage) ++ [ReadDone]))
    (lit "tocqueville") =
    [user_message (lit "Q"); assistant_message (lit "AB")].
Proof.
  destruct (C5_malformed_payload_dropped
              (data_line (lit "{oops")) [data_line event2]
              [data_line event3] Scenario.with_garbage Scenario.sent
              Scenario.first_turn)
    as (Hdrop & Hevents & _ & _ & Hrun).
  - vm_compute. reflexivity.
  - vm_compute. discriminate.
  - vm_compute. reflexivity.
  - reflexivity.
  - reflexivity.
  - split; [exact Hdrop|]. split; [exact Hevents|].
    rewrite Hrun. vm_compute. reflexivity.
Defined.

Lemma C6_cut_character_witness :
  concat Scenario.greeting_whole = concat Scenario.greeting_cut ∧
  streamMessage Scenario.greeting_whole Closed =
    streamMessage Scenario.greeting_cut Closed ∧
  read_values loop_init Scenario.greeting_whole =
    read_values loop_init Scenario.greeting_cut.
Proof.
  split; [vm_compute; reflexivity|].
  apply (C6_chunking_invariance Scenario.greeting_whole Scenario.greeting_cut).
  vm_compute. reflexivity.
Defined.

Lemma C7_empty_turn_witness :
  history (step Scenario.sent ReadDone) (lit "tocqueville") =
    [user_message (lit "Q"); assistant_message []] ∧
  isStreaming (step Scenario.sent ReadDone) = false ∧
  toasts (step Scenario.sent ReadDone) = [].
Proof.
  destruct (C7_close_without_sentinel_commits Scenario.sent
              Scenario.first_turn Scenario.cut_short wf_sent)
    as (_ & Hh & Hs & _ & Ht & _).
  - reflexivity.
  - split; [exact Hh|]. split; [exact Hs|exact Ht].
Defined.

(** C8 on the code: after a turn, the handler of "clear all conversations"
    removes the stored item and leaves the page with the history it had;
    the next message that is sent stores that history again. *)
Theorem C8_clear_all_keeps_history :
  let s' := step Scenario.answered ClearAll in
  masterConversations s' = None ∧
  read_history s' = [user_message (lit "Q"); assistant_message (lit "AB")] ∧
  masterConversations (step s' (Send (lit "again")))
    ≫= (.!! lit "tocqueville") =
  Some [user_message (lit "Q"); assistant_message (lit "AB");
        user_message (lit "again")].
Proof. vm_compute. repeat split; reflexivity. Qed.

Lemma C9_live_array_witness :
  let '(s1, r) := getCurrentMessages Scenario.answered in
  deref (addMessageToConversation (lit "user") (lit "more") s1) r =
    deref s1 r ++ [user_message (lit "more")] ∧
  deref (clearConversation s1).1 r = deref s1 r.
Proof.
  apply (C9_history_is_the_live_array Scenario.answered (lit "user")
           (lit "more") wf_answered).
Defined.

(** C9, as it is written, fails: what was read through
    [getCurrentMessages] after the turn of the scenario has a third message
    once one is appended. *)
Lemma C9_append_shows_through :
  ¬ is_snapshot (lit "user") (lit "more") Scenario.answered.
Proof.
  unfold is_snapshot. vm_compute. intros [Happend _]. discriminate Happend.
Qed.

Lemma C10_cut_short_witness :
  streamMessage Scenario.cut_short Closed =
    text_callbacks (data_line event2 ++ [LF; LF]) Closed ∧
  history
    (run Scenario.sent ((Read <$> Scenario.cut_short) ++ [ReadDone]))
    (lit "tocqueville") =
    [user_message (lit "Q"); assistant_message (lit "A")].
Proof.
  destruct (C10_unterminated_remainder_discarded Scenario.cut_short
              (data_line event2 ++ [LF; LF]) (data_line event3)
              Scenario.sent Scenario.first_turn)
    as (Hcalls & Hrun & _).
  - vm_compute. reflexivity.
  - apply (bool_decide_unpack _). vm_compute. exact I.
  - right. exists (data_line event2 ++ [LF]). vm_compute. reflexivity.
  - reflexivity.
  - reflexivity.
  - split; [exact Hcalls|]. rewrite Hrun. vm_compute. reflexivity.
Defined.

(** * Further properties of the page *)

Section session_facts.
Context `{Platform}.

Implicit Types (s : state) (t : turn) (P : jsstring) (e : event).

(** ** What is stored and what is loaded *)









Lemma sendMessage_cases v s :
  sendMessage v s = (s, Normal ()) ∨
  (∃ t, sendMessage v s =
        (set_pending (Some t)
           (set_isStreaming true
              (addMessageToConversation (lit "user") (trim v) s)),
         Normal ()) ∧ loop t = loop_init ∧ fullResponse t = []) ∨
  ((currentMaster s ∉ MASTERS) ∧
   sendMessage v s =
   (set_isStreaming true (addMessageToConversation (lit "user") (trim v) s),
    Throw)).
Proof.
  destruct (isStreaming s) eqn:Hs; [left; by apply sendMessage_busy|].
  destruct (str_truthy (trim v)) eqn:Hv.
  - destruct (decide (currentMaster s ∈ MASTERS)) as [Hm|Hm].
    + right. left. rewrite (sendMessage_start v s Hs Hv Hm). eauto.
    + right. right. split; [done|]. unfold sendMessage. rewrite Hs, Hv.
      cbn [negb orb]. cbn [currentMaster set_isStreaming].
      rewrite (proj1 (add_fields _ _ _)).
      by rewrite bool_decide_eq_false_2.
  - left. unfold sendMessage. by rewrite Hv.
Qed.







End session_facts.

Section turn_session_facts.
Context `{Platform}.

Implicit Types (s : state) (t : turn) (P : jsstring) (e : event).

Lemma new_fields saved :
  currentMaster (ChatPage_new saved) = lit "tocqueville" ∧
  isStreaming (ChatPage_new saved) = false ∧
  pending (ChatPage_new saved) = None ∧
  toasts (ChatPage_new saved) = [].
Proof.
  unfold ChatPage_new, loadConversations. cbn [masterConversations heap].
  destruct saved as [saved|]; cbn zeta.
  - destruct (parse_conversations saved []) as [h c].
    by destruct (conversations _ !! _).
  - by destruct (conversations _ !! _).
Qed.

Lemma resume_failed s t m :
  pending s = Some t →
  resume s (λ _, read_failed m) =
  set_pending None (show_toast (Error_send_failed m) (set_isStreaming false s)).
Proof. intros Hp. unfold resume. by rewrite Hp. Qed.

(** What an event of the reader does to a page with a pending call. *)
Lemma step_reader_cases s t e :
  pending s = Some t →
  match e with Read _ | ReadDone | ReadFailed _ => True | _ => False end →
  (∃ t', step s e = set_pending (Some t') s ∧
         fullResponse t `prefix_of` fullResponse t') ∨
  (∃ text, step s e = committed text s) ∨
  (∃ m, step s e =
        set_pending None
          (show_toast (Error_send_failed m) (set_isStreaming false s))).
Proof.
  intros Hp He. destruct e; try done; simpl.
  - destruct (read_value_shape (loop t) value) as (cs & Hcs & [[l E]|E]).
    + left. rewrite (resume_continue s t _ cs l Hp E Hcs).
      eexists. split; [done|]. by apply prefix_app_r.
    + right. left. rewrite (resume_complete s t _ cs Hp E Hcs). eauto.
  - right. left. erewrite (resume_complete s t _ []); [|done..]. eauto.
  - right. right. rewrite (resume_failed s t message Hp). eauto.
Qed.

Lemma turn_consistent_idle s :
  currentMaster s ∈ MASTERS → isStreaming s = false → pending s = None →
  turn_consistent s.
Proof.
  intros Hm Hs Hp. split; [done|]. rewrite Hs, Hp.
  split; [done|by intros [??]].
Qed.

Lemma turn_consistent_busy s t :
  currentMaster s ∈ MASTERS → isStreaming s = true → pending s = Some t →
  turn_consistent s.
Proof. intros Hm Hs Hp. split; [done|]. rewrite Hs, Hp. split; eauto. Qed.

Lemma turn_consistent_cases s :
  turn_consistent s →
  (isStreaming s = true ∧ ∃ t, pending s = Some t) ∨
  (isStreaming s = false ∧ pending s = None).
Proof.
  intros [_ Hs]. destruct (pending s) as [t|] eqn:Hp.
  - left. split; [apply Hs|]; eauto.
  - right. split; [|done]. destruct (isStreaming s); [|done].
    by destruct (proj1 Hs eq_refl).
Qed.

Lemma turn_consistent_new saved : turn_consistent (ChatPage_new saved).
Proof.
  destruct (new_fields saved) as (Hc & Hs & Hp & _).
  apply turn_consistent_idle; [rewrite Hc; by left|done..].
Qed.

Lemma turn_consistent_reader s t e :
  currentMaster s ∈ MASTERS → isStreaming s = true → pending s = Some t →
  match e with Read _ | ReadDone | ReadFailed _ => True | _ => False end →
  turn_consistent (step s e).
Proof.
  intros Hm Hs Hp He.
  destruct (step_reader_cases s t e Hp He)
    as [(t' & -> & _)|[(text & ->)|(m & ->)]].
  - by apply (turn_consistent_busy _ t').
  - destruct (committed_fields text s) as (Hc & Hi & Hn & _).
    apply turn_consistent_idle; [by rewrite Hc|done..].
  - by apply turn_consistent_idle.
Qed.

Lemma turn_consistent_step s e :
  turn_consistent s → selects_known_master e = true →
  turn_consistent (step s e).
Proof.
  intros Hc He. pose proof (proj1 Hc) as Hm.
  destruct (turn_consistent_cases s Hc) as [[Hs [t Hp]]|[Hs Hp]].
  - (* a call is pending: the page is streaming *)
    destruct e; try (by apply (turn_consistent_reader s t)).
    + simpl. by rewrite (sendMessage_busy _ _ Hs).
    + simpl. unfold switchMaster. rewrite Hs.
      by apply (turn_consistent_busy _ t).
    + simpl. unfold clearConversation. rewrite bool_decide_eq_true_2 by done.
      by apply (turn_consistent_busy _ t).
    + by apply (turn_consistent_busy _ t).
    + apply turn_consistent_new.
  - (* no call is pending: the page is not streaming *)
    destruct e; simpl; try (by rewrite resume_idle).
    + destruct (sendMessage_cases input_value s)
        as [->|[(t & -> & _)|[Hn _]]]; [done| |done].
      apply (turn_consistent_busy _ t); [|done..].
      cbn [fst currentMaster set_pending set_isStreaming].
      by rewrite (proj1 (add_fields _ _ _)).
    + unfold switchMaster. rewrite Hs. simpl in He.
      apply bool_decide_eq_true in He. rewrite bool_decide_eq_true_2 by done.
      by apply turn_consistent_idle.
    + unfold clearConversation. rewrite bool_decide_eq_true_2 by done.
      by apply turn_consistent_idle.
    + by apply turn_consistent_idle.
    + apply turn_consistent_new.
Qed.

(** X3: in a session in which the master selector offers the masters of
    the table only, the current master is always one of them, and the page
    is streaming exactly when a call of [api.streamMessage] is pending:
    the page is never left streaming once a body has ended, and there is
    never a call without the page streaming. *)
Theorem session_streaming_iff_pending saved es :
  forallb selects_known_master es = true →
  turn_consistent (run (ChatPage_new saved) es).
Proof.
  pose proof (turn_consistent_new saved) as H0.
  revert H0. generalize (ChatPage_new saved). intros s Hs Hes.
  revert s Hs. induction es as [|e es IH]; intros s Hs; [done|].
  simpl in Hes. apply andb_prop in Hes as [He Hes].
  simpl. apply IH; [done|]. by apply turn_consistent_step.
Qed.


(** X5: when the body fails before a terminal line was read, the text
    received so far is dropped: the page is what it was when the call was
    made, but that it is no longer streaming, has no call pending and
    shows the error. The histories, the user message among them, and the
    stored item are unchanged. *)
Theorem failed_body_commits_nothing values m s t :
  pending s = Some t → loop t = loop_init →
  (for_lines (complete_lines (decoded (concat values)))).2 = false →
  run s ((Read <$> values) ++ [ReadFailed m]) =
  set_pending None (show_toast (Error_send_failed m) (set_isStreaming false s)).
Proof.
  intros Hp Hl Hn. unfold run. rewrite foldl_snoc.
  change (foldl step ?a ?b) with (run a b).
  rewrite (run_reads s t values Hp), Hl.
  rewrite read_values_text by (by intros ?%not_elem_of_nil).
  unfold decoded in Hn. simpl.
  destruct (TextDecoder_decode decoder_init (concat values)) as [d text].
  simpl in Hn. destruct (for_lines (complete_lines text)) as [cs r].
  simpl in Hn. subst r. simpl. by erewrite resume_failed.
Qed.

(** X6: clearing the conversation while a turn is pending does not end the
    turn; when the body is closed afterwards, the answer is appended to the
    new, empty conversation, of which it is then the only message. *)
Theorem clear_during_turn s t :
  wf s → pending s = Some t → currentMaster s ∈ MASTERS →
  pending (step s ClearCurrent) = Some t ∧
  isStreaming (step s ClearCurrent) = isStreaming s ∧
  history (run s [ClearCurrent; ReadDone]) (currentMaster s) =
    [assistant_message (fullResponse t)].
Proof.
  intros Hwf Hp Hm.
  destruct (clear_facts s Hwf Hm) as (Hwf' & _ & Hc & Hh & _).
  assert (pending (clearConversation s).1 = Some t) as Hp'.
  { unfold clearConversation. by rewrite bool_decide_eq_true_2. }
  split; [done|]. split.
  { simpl. unfold clearConversation. by rewrite bool_decide_eq_true_2. }
  simpl. erewrite (resume_complete _ t _ []); [|done..].
  rewrite app_nil_r, history_committed, Hc, decide_True by done.
  by rewrite Hh.
Qed.

(** X7: while a turn is pending, the values that are read only add to the
    accumulated text, which what was accumulated before is a prefix of,
    and change no history: nothing is stored before the turn ends. *)
Theorem accumulated_text_grows values s t t' :
  pending s = Some t → pending (run s (Read <$> values)) = Some t' →
  fullResponse t `prefix_of` fullResponse t' ∧
  posted t' = posted t ∧
  ∀ P, history (run s (Read <$> values)) P = history s P.
Proof.
  intros Hp Hp'. rewrite (run_reads s t values Hp) in Hp' |- *.
  destruct (read_values (loop t) values) as [cs [l|]].
  - simpl in Hp'. simplify_eq. simpl.
    split; [by apply prefix_app_r|done].
  - by rewrite (proj1 (proj2 (proj2 (committed_fields _ s)))) in Hp'.
Qed.

End turn_session_facts.

(** * Further properties of the stream decoder and of sendMessage *)

Section decoder_facts.
Context `{Platform}.

Implicit Types (s : state) (t : turn) (line : jsstring).

Lemma handle_line_truthy line : Forall truthy_chunk (handle_line line).1.
Proof.
  rewrite handle_line_data.
  destruct (is_terminal line); [by repeat constructor|].
  destruct (is_data_line line); [|done].
  destruct (JSON_parse (payload line)) as [json|]; [|by repeat constructor].
  destruct (result_delta_content json) as [[c|]|];
    [|done|by repeat constructor].
  destruct (truthy (Some c)) eqn:E; [|done]. by repeat constructor.
Qed.

Lemma for_lines_truthy L : Forall truthy_chunk (for_lines L).1.
Proof.
  induction L as [|line L IH]; [done|]. simpl.
  pose proof (handle_line_truthy line) as Hl.
  destruct (handle_line line) as [cs [|]]; [done|].
  destruct (for_lines L) as [cs' r']. by apply Forall_app.
Qed.

(** X8: [onChunk] is never called with a falsy value: an event whose
    content is missing, [null], empty, zero or [false] makes no call. *)
Theorem onChunk_only_truthy values e :
  Forall truthy_chunk (streamMessage values e).
Proof.
  rewrite streamMessage_text. unfold text_callbacks.
  pose proof (for_lines_truthy (complete_lines (decoded (concat values))))
    as Hl.
  destruct (for_lines _) as [cs [|]]; simpl in *.
  - by rewrite app_nil_r.
  - apply Forall_app. split; [done|]. destruct e; by repeat constructor.
Qed.

Lemma trimStart_all_white (x : jsstring) :
  Forall (λ c, is_white_space c = true) x → trimStart x = [].
Proof.
  induction 1 as [|c x Hc _ IH]; [done|]. simpl. by rewrite Hc.
Qed.

Lemma trimStart_snoc (x : jsstring) c :
  is_white_space c = true →
  trimStart (x ++ [c]) =
  match trimStart x with [] => [] | _ :: _ => trimStart x ++ [c] end.
Proof.
  intros Hc. induction x as [|a x IH]; simpl.
  - by rewrite Hc.
  - by destruct (is_white_space a).
Qed.

Lemma trimEnd_snoc (x : jsstring) c :
  is_white_space c = true → trimEnd (x ++ [c]) = trimEnd x.
Proof.
  intros Hc. unfold trimEnd. rewrite rev_unit. simpl. by rewrite Hc.
Qed.

Lemma trim_snoc (x : jsstring) c :
  is_white_space c = true → trim (x ++ [c]) = trim x.
Proof.
  intros Hc. unfold trim. rewrite trimStart_snoc by done.
  destruct (trimStart x) as [|a x'] eqn:E; [done|].
  by rewrite trimEnd_snoc.
Qed.

Lemma trim_all_white (x : jsstring) :
  Forall (λ c, is_white_space c = true) x → trim x = [].
Proof. intros Hx. unfold trim. by rewrite trimStart_all_white. Qed.

Lemma startsWith_snoc line c p :
  c ∉ p → startsWith (line ++ [c]) p = startsWith line p.
Proof.
  revert line. induction p as [|a p IH]; intros line Hc; [done|].
  apply not_elem_of_cons in Hc as [Hca Hc].
  destruct line as [|b line]; simpl.
  - destruct (a =? c)%N eqn:E; [|done]. apply N.eqb_eq in E. congruence.
  - by rewrite IH.
Qed.

Lemma startsWith_length line p :
  startsWith line p = true → length p ≤ length line.
Proof.
  revert line. induction p as [|a p IH]; intros line; simpl; [lia|].
  destruct line as [|b line]; [done|].
  intros [_ Hp]%andb_prop. apply IH in Hp. simpl. lia.
Qed.

(** X9: a carriage return at the end of a line changes nothing: the line
    is an event, a terminal line or framing as it is without it, with the
    same payload. A body whose lines end in CR LF makes the calls of the
    body whose lines end in LF. *)
Theorem carriage_return_ignored line L :
  handle_line (line ++ [CR]) = handle_line line ∧
  for_lines ((λ l, l ++ [CR]) <$> L) = for_lines L.
Proof.
  assert (∀ l, handle_line (l ++ [CR]) = handle_line l) as Hl.
  { intros l. unfold handle_line.
    rewrite (trim_snoc l CR) by reflexivity.
    rewrite (startsWith_snoc l CR) by (apply (bool_decide_unpack _); reflexivity).
    destruct (startsWith l (lit "data: ")) eqn:Hd;
      [|by rewrite !andb_false_r].
    apply startsWith_length in Hd.
    unfold slice. rewrite drop_app_le by exact Hd.
    by rewrite (trim_snoc (drop 6 l) CR). }
  split; [done|].
  induction L as [|l L IH]; [done|].
  rewrite fmap_cons. cbn [for_lines]. by rewrite Hl, IH.
Qed.

(** X10: on a page that is not streaming, [sendMessage] leaves the page
    as it is exactly when the text of the input field is white space only
    (or empty): such a text is never stored nor posted, and any other text
    is. *)
Theorem blank_input_ignored input_value s :
  isStreaming s = false →
  ((sendMessage input_value s).1 = s ↔
   Forall (λ c, is_white_space c = true) input_value).
Proof.
  intros Hs. split.
  - intros E. destruct (str_truthy (trim input_value)) eqn:Hv.
    + exfalso. unfold sendMessage in E. rewrite Hs, Hv in E. cbn [negb orb] in E.
      assert (isStreaming (sendMessage input_value s).1 = true) as Hstr.
      { unfold sendMessage. rewrite Hs, Hv. cbn [negb orb].
        case_bool_decide; [|done]. unfold getCurrentMessages.
        by destruct (conversations _ !! _). }
      unfold sendMessage in Hstr. rewrite Hs, Hv in Hstr.
      cbn [negb orb] in Hstr. rewrite E in Hstr. congruence.
    + apply trim_nil. by destruct (trim input_value).
  - intros Hw. unfold sendMessage. by rewrite (trim_all_white _ Hw).
Qed.


End decoder_facts.

(** * App.showFeedback, ChatPage.getUserId *)

Section feedback_facts.
Context `{Platform}.

Implicit Types (s : state) (m : FeedbackModal).

Lemma deref_add_live s r ro c :
  wf s → conversations s !! currentMaster s = Some r →
  deref (addMessageToConversation ro c s) r =
  deref s r ++ [{| role := ro; content := c |}].
Proof.
  intros Hwf E. pose proof (history_add s ro c (currentMaster s) Hwf) as Hh.
  rewrite decide_True in Hh by done. unfold history in Hh.
  assert (conversations (addMessageToConversation ro c s)
            !! currentMaster s = Some r) as Hr.
  { rewrite add_unfold, E. simpl. done. }
  by rewrite Hr, E in Hh.
Qed.

Lemma deref_clear_stale s r :
  wf s → conversations s !! currentMaster s = Some r →
  deref (clearConversation s).1 r = deref s r.
Proof.
  intros Hwf E. unfold clearConversation. case_bool_decide; [|done].
  unfold deref. simpl. rewrite lookup_app_l; [done|].
  by apply (proj1 Hwf _ _ E).
Qed.

(** X12: [showFeedback] opens no dialog when the current master has no
    message. Otherwise the dialog starts with the rating 5 and holds the
    array of the page itself: the feedback that is submitted carries the
    messages the array holds when the submit button is clicked, a message
    appended in the meantime included, and still carries them all when the
    conversation was cleared in the meantime. *)
Theorem feedback_carries_live_history userId comment ro c s :
  wf s →
  match (showFeedback userId s).2 with
  | None => history s (currentMaster s) = []
  | Some m =>
      history s (currentMaster s) ≠ [] ∧
      (showFeedback userId s).1 = s ∧
      modal_rating m = 5%Z ∧ modal_userId m = userId ∧
      request_messages (submitFeedback comment m s) =
        history s (currentMaster s) ∧
      request_messages
        (submitFeedback comment m (addMessageToConversation ro c s)) =
        history s (currentMaster s) ++ [{| role := ro; content := c |}] ∧
      request_messages (submitFeedback comment m (clearConversation s).1) =
        history s (currentMaster s)
  end.
Proof.
  intros Hwf. unfold showFeedback, getCurrentMessages, history.
  destruct (conversations s !! currentMaster s) as [r|] eqn:E.
  - destruct (deref s r) as [|m0 ms] eqn:Hd; simpl; [done|].
    split; [done|]. split; [done|]. split; [done|]. split; [done|].
    split; [done|].
    unfold submitFeedback. simpl.
    rewrite (deref_add_live s r ro c Hwf E), (deref_clear_stale s r Hwf E).
    by rewrite Hd.
  - unfold alloc, deref. simpl. by rewrite list_lookup_middle.
Qed.

End feedback_facts.

(** X13: the user id is generated once: whatever the clock and the random
    number are at a later call, [getUserId] returns the id of the first
    call and leaves the stored item as it is; an id that is stored and not
    empty is kept, and the id is never empty. *)
Theorem getUserId_stable now random now' random' userId :
  getUserId now' random' (getUserId now random userId).2 =
    getUserId now random userId ∧
  (getUserId now random userId).2 = Some (getUserId now random userId).1 ∧
  str_truthy (getUserId now random userId).1 = true ∧
  (∀ u, userId = Some u → str_truthy u = true →
        (getUserId now random userId).1 = u).
Proof.
  unfold getUserId.
  destruct userId as [u|]; [destruct (str_truthy u) eqn:Hu|]; simpl;
    rewrite ?Hu; repeat split; try done; intros u' [= <-]; congruence.
Qed.

(** * APIService: the conversations and feedbacks kept in localStorage *)

Lemma removelast_take {A} (l : list A) n :
  length l = S n → removelast l = take n l.
Proof. intros E. by rewrite removelast_firstn_len, E. Qed.

Lemma saveConversation_all c ls :
  length (getAllConversationsLocal ls) ≤ 50 →
  getAllConversationsLocal (saveConversation c ls) =
  take 50 (c :: getAllConversationsLocal ls).
Proof.
  intros Hl. unfold saveConversation.
  set (l := getAllConversationsLocal ls) in *.
  unfold getAllConversationsLocal. cbn [item_conversations].
  destruct (Nat.ltb_spec 50 (length (c :: l))) as [Hlt|Hge].
  - apply removelast_take. simpl in *. lia.
  - symmetry. by apply take_ge.
Qed.

(** X14: the stored conversations are the most recent ones, the newest
    first, and never more than fifty once there were no more than fifty:
    after a sequence of saves they are the first fifty of the saved ones in
    reverse order followed by those there were. *)
Theorem saved_conversations_most_recent cs ls :
  length (getAllConversationsLocal ls) ≤ 50 →
  getAllConversationsLocal (foldl (λ ls' c, saveConversation c ls') ls cs) =
    take 50 (rev cs ++ getAllConversationsLocal ls) ∧
  length (getAllConversationsLocal
            (foldl (λ ls' c, saveConversation c ls') ls cs)) ≤ 50.
Proof.
  intros Hl.
  assert (getAllConversationsLocal
            (foldl (λ ls' c, saveConversation c ls') ls cs) =
          take 50 (rev cs ++ getAllConversationsLocal ls)) as E.
  { induction cs as [|c cs IH] using rev_ind.
    - simpl. by rewrite take_ge.
    - rewrite foldl_snoc, saveConversation_all, IH.
      + rewrite rev_unit. simpl. f_equal. by rewrite take_take.
      + rewrite IH, length_take. lia. }
  split; [done|]. rewrite E, length_take. lia.
Qed.

(** X15: a conversation that has just been saved is the one its id gives,
    whatever was stored before, a conversation of the same id or fifty
    conversations among them; the lookup of another id is unchanged as
    long as fewer than fifty were stored. *)
Theorem saved_conversation_is_found c ls :
  getConversationLocal (conv_id c) (saveConversation c ls) = Some c ∧
  (∀ id, id ≠ conv_id c → length (getAllConversationsLocal ls) < 50 →
         getConversationLocal id (saveConversation c ls) =
         getConversationLocal id ls).
Proof.
  assert (∀ id, getConversationLocal id (saveConversation c ls) =
                List.find (λ c', str_eqb (conv_id c') id)
                  (if (50 <? length (c :: getAllConversationsLocal ls))%nat
                   then removelast (c :: getAllConversationsLocal ls)
                   else c :: getAllConversationsLocal ls)) as Hget by done.
  assert (str_eqb (conv_id c) (conv_id c) = true) as Hc
    by (by apply str_eqb_eq).
  split.
  - rewrite Hget. generalize (getAllConversationsLocal ls). intros l.
    destruct (50 <? length (c :: l))%nat eqn:E.
    + destruct l as [|c' l']; [done|].
      cbn [removelast List.find]. by rewrite Hc.
    + cbn [List.find]. by rewrite Hc.
  - intros id Hid Hlt. rewrite Hget. unfold getConversationLocal.
    destruct (Nat.ltb_spec 50 (length (c :: getAllConversationsLocal ls)))
      as [Hgt|_]; [simpl in Hgt; lia|].
    cbn [List.find]. assert (str_eqb (conv_id c) id = false) as ->; [|done].
    apply str_eqb_neq. congruence.
Qed.

Lemma find_filter {A} (f g : A → bool) (l : list A) :
  (∀ x, f x = true → g x = true) →
  List.find f (List.filter g l) = List.find f l.
Proof.
  intros Hfg. induction l as [|x l IH]; [done|]. simpl.
  destruct (g x) eqn:Hg; simpl.
  - by rewrite IH.
  - destruct (f x) eqn:Hf; [|done]. apply Hfg in Hf. congruence.
Qed.

(** X16: after [deleteConversationLocal(id)] no conversation has that id,
    the lookup of every other id gives what it gave, and the conversations
    kept are in the order they had. *)
Theorem deleted_conversation_is_gone id ls :
  getConversationLocal id (deleteConversationLocal id ls) = None ∧
  (∀ id', id' ≠ id →
          getConversationLocal id' (deleteConversationLocal id ls) =
          getConversationLocal id' ls) ∧
  getAllConversationsLocal (deleteConversationLocal id ls) `sublist_of`
    getAllConversationsLocal ls ∧
  getAllFeedbacks (deleteConversationLocal id ls) = getAllFeedbacks ls.
Proof.
  unfold getConversationLocal, deleteConversationLocal,
    getAllConversationsLocal at 1 3 5. simpl.
  split; [|split; [|split; [|done]]].
  - induction (getAllConversationsLocal ls) as [|c l IH]; [done|]. simpl.
    destruct (str_eqb (conv_id c) id) eqn:E; simpl; [done|]. by rewrite E.
  - intros id' Hid. apply find_filter. intros x Hx.
    apply str_eqb_eq in Hx. apply negb_true_iff, str_eqb_neq. congruence.
  - induction (getAllConversationsLocal ls) as [|c l IH]; [done|]. simpl.
    destruct (negb _); by constructor.
Qed.



(** * formatDateTime, App.navigateTo *)

(** X18: the label of a date: "just now" below one minute, future dates
    among them; then a count of whole minutes from 1 to 59, of whole hours
    from 1 to 23, of whole days from 1 to 6, each the number of whole units
    in the difference; and the calendar date from seven days on. *)
Theorem formatDateTime_bounds (diff : Z) :
  match formatDateTime (Some diff) with
  | JustNow => (diff < 60000)%Z
  | MinutesAgo n =>
      (1 ≤ n ≤ 59 ∧ 60000 * n ≤ diff < 60000 * (n + 1))%Z
  | HoursAgo n =>
      (1 ≤ n ≤ 23 ∧ 3600000 * n ≤ diff < 3600000 * (n + 1))%Z
  | DaysAgo n =>
      (1 ≤ n ≤ 6 ∧ 86400000 * n ≤ diff < 86400000 * (n + 1))%Z
  | CalendarDate => (604800000 ≤ diff)%Z
  end.
Proof.
  unfold formatDateTime.
  destruct (Z.ltb_spec diff 60000); [done|].
  destruct (Z.ltb_spec diff 3600000);
    [Z.to_euclidean_division_equations; lia|].
  destruct (Z.ltb_spec diff 86400000);
    [Z.to_euclidean_division_equations; lia|].
  destruct (Z.ltb_spec diff 604800000);
    [Z.to_euclidean_division_equations; lia|done].
Qed.

(** X19: [navigateTo] ends on one of the four pages, with that page in the
    container, for every name that [Object.prototype] does not define: the
    page of that name, or the chat page for any other name. For a name
    that [Object.prototype] defines it ends in a TypeError with the
    container empty. An empty hash routes to the chat page. *)
Theorem navigateTo_lands_on_a_page page a :
  (page ∉ Object_prototype →
   (navigateTo page a).2 = Normal () ∧
   currentPage (navigateTo page a).1 ∈ pages ∧
   currentPage (navigateTo page a).1 =
     (if bool_decide (page ∈ pages) then page else lit "chat") ∧
   appContainer (navigateTo page a).1 =
     Rendered (currentPage (navigateTo page a).1)) ∧
  (page ∈ Object_prototype →
   navigateTo page a =
   ({| currentPage := page; appContainer := NoElement |}, Throw)) ∧
  handleRoute [] a = navigateTo (lit "chat") a ∧
  handleRoute (lit "#") a = navigateTo (lit "chat") a.
Proof.
  assert (∀ p, p ∈ pages → p ∉ Object_prototype) as Hdisj.
  { intros p Hp. unfold pages in Hp.
    repeat (apply elem_of_cons in Hp as [->|Hp];
            [apply (bool_decide_unpack _); vm_compute; exact I|]).
    by apply not_elem_of_nil in Hp. }
  assert (lit "chat" ∈ pages) as Hchat by (by left).
  assert (str_eqb (lit "chat") (lit "chat") = true) as Hcc by done.
  split; [|split; [|done]].
  - intros Hproto. unfold navigateTo.
    rewrite (bool_decide_eq_false_2 (page ∈ Object_prototype)) by done.
    rewrite orb_false_r.
    case_bool_decide as Hp; cbn zeta.
    + destruct (str_eqb page (lit "chat")) eqn:E1.
      * apply str_eqb_eq in E1. subst page.
        destruct (appContainer a) as [|shown]; cbn [andb].
        -- by rewrite bool_decide_eq_true_2.
        -- destruct (str_eqb shown (lit "chat")) eqn:E2.
           ++ apply str_eqb_eq in E2. by subst shown.
           ++ by rewrite bool_decide_eq_true_2.
      * cbn [andb]. by rewrite bool_decide_eq_true_2.
    + rewrite Hcc. destruct (appContainer a) as [|shown]; cbn [andb].
      * by rewrite bool_decide_eq_true_2.
      * destruct (str_eqb shown (lit "chat")) eqn:E2.
        -- apply str_eqb_eq in E2. by subst shown.
        -- by rewrite bool_decide_eq_true_2.
  - intros Hproto. unfold navigateTo.
    assert (page ∉ pages) as Hp by (intros Hp; by apply Hdisj in Hp).
    rewrite (bool_decide_eq_false_2 (page ∈ pages)) by done.
    rewrite (bool_decide_eq_true_2 (page ∈ Object_prototype)) by done.
    cbn [orb]. assert (str_eqb page (lit "chat") = false) as ->.
    { apply str_eqb_neq. intros ->. by apply Hp. }
    cbn [andb]. by rewrite bool_decide_eq_false_2.
Qed.

(** * The theme *)

Lemma theme_toggle_click_cases a :
  theme_toggle_click a =
    {| data_theme := Some (lit "light"); item_theme := Some (lit "light");
       theme_icon_text := Moon |} ∧ data_theme a = Some (lit "dark") ∨
  theme_toggle_click a =
    {| data_theme := Some (lit "dark"); item_theme := Some (lit "dark");
       theme_icon_text := Sun |} ∧ data_theme a ≠ Some (lit "dark").
Proof.
  unfold theme_toggle_click. destruct (data_theme a) as [t|]; [|by right].
  destruct (str_eqb t (lit "dark")) eqn:E.
  - left. apply str_eqb_eq in E. by subst t.
  - right. apply str_eqb_neq in E. split; [done|congruence].
Qed.

(** X20: from the first click on the theme button on, whatever the
    attribute and the stored item were, the theme is light or dark, the
    stored item holds it, each click changes it and two clicks restore the
    document; and a document that is loaded with that item stored starts
    in that theme, with its icon. *)
Theorem theme_toggle_alternates (a : appearance) :
  let a1 := theme_toggle_click a in
  (data_theme a1 = Some (lit "light") ∨ data_theme a1 = Some (lit "dark")) ∧
  item_theme a1 = data_theme a1 ∧
  data_theme (theme_toggle_click a1) ≠ data_theme a1 ∧
  theme_toggle_click (theme_toggle_click a1) = a1 ∧
  (∀ a0, item_theme a0 = item_theme a1 → init_theme a0 = a1).
Proof.
  intros a1. subst a1.
  destruct (theme_toggle_click_cases a) as [[-> _]|[-> _]].
  - split; [by left|]. split; [done|]. split; [done|]. split; [done|].
    intros a0 E. unfold init_theme, savedTheme, setTheme. by rewrite E.
  - split; [by right|]. split; [done|]. split; [done|]. split; [done|].
    intros a0 E. unfold init_theme, savedTheme, setTheme. by rewrite E.
Qed.

(** X21: a click on the toggle of the settings page sets the theme to what
    the toggle then shows, whatever the theme was, and stores it. The
    toggle shows the theme when the page is rendered on a document that
    was loaded with no theme, light or dark stored. Once the theme button
    has been clicked in between, the toggle no longer shows the theme, and
    the next click on the toggle leaves the theme as it is. *)
Theorem settings_toggle_sets_its_own_state active (a : appearance) :
  shows_theme (settings_toggle_click active a).1
    (settings_toggle_click active a).2 ∧
  item_theme (settings_toggle_click active a).2 =
    data_theme (settings_toggle_click active a).2 ∧
  (item_theme a ∈ [None; Some (lit "light"); Some (lit "dark")] →
   shows_theme (settings_toggle (init_theme a)) (init_theme a)) ∧
  (shows_theme active a →
   ¬ shows_theme active (theme_toggle_click a) ∧
   data_theme (settings_toggle_click active (theme_toggle_click a)).2 =
     data_theme (theme_toggle_click a)).
Proof.
  split; [done|]. split; [done|]. split.
  - intros Hi. unfold shows_theme, settings_toggle, init_theme, savedTheme.
    cbn [setTheme item_theme data_theme].
    repeat (apply elem_of_cons in Hi as [->|Hi]); [done..|].
    by apply elem_of_nil in Hi.
  - unfold shows_theme. intros Ha.
    destruct (theme_toggle_click_cases a) as [[-> Hd]|[-> Hd]];
      rewrite Ha in Hd; destruct active; try done.
Qed.

(** * The further properties on sessions of the scenario *)


Lemma session_streaming_iff_pending_witness :
  turn_consistent (run Scenario.fresh Sessions.reselect).
Proof.
  apply (session_streaming_iff_pending (H:=Browser.platform) None
           Sessions.reselect).
  vm_compute. reflexivity.
Defined.


Lemma failed_body_commits_nothing_witness :
  run Scenario.sent ((Read <$> Scenario.cut_short) ++
                     [ReadFailed (lit "network")]) =
  set_pending None
    (show_toast (Error_send_failed (lit "network"))
       (set_isStreaming false Scenario.sent)).
Proof.
  apply (failed_body_commits_nothing Scenario.cut_short (lit "network")
           Scenario.sent Scenario.first_turn).
  - reflexivity.
  - reflexivity.
  - vm_compute. reflexivity.
Defined.

Lemma clear_during_turn_witness :
  pending (step Scenario.sent ClearCurrent) = Some Scenario.first_turn ∧
  isStreaming (step Scenario.sent ClearCurrent) = isStreaming Scenario.sent ∧
  history (run Scenario.sent [ClearCurrent; ReadDone])
    (currentMaster Scenario.sent) =
    [assistant_message (fullResponse Scenario.first_turn)].
Proof.
  apply (clear_during_turn Scenario.sent Scenario.first_turn).
  - apply wf_sent.
  - reflexivity.
  - apply (bool_decide_unpack _). vm_compute. exact I.
Defined.

Lemma accumulated_text_grows_witness :
  fullResponse Scenario.first_turn `prefix_of`
    fullResponse Sessions.after_second_event ∧
  posted Sessions.after_second_event = posted Scenario.first_turn ∧
  ∀ P, history (run Scenario.sent (Read <$> [Sessions.second_event])) P =
       history Scenario.sent P.
Proof.
  apply (accumulated_text_grows [Sessions.second_event] Scenario.sent
           Scenario.first_turn Sessions.after_second_event).
  - reflexivity.
  - reflexivity.
Defined.

Lemma blank_input_ignored_witness :
  (sendMessage (lit "  ") Scenario.fresh).1 = Scenario.fresh ∧
  ¬ Forall (λ c, is_white_space c = true) (lit " Q ") ∧
  (sendMessage (lit " Q ") Scenario.fresh).1 ≠ Scenario.fresh.
Proof.
  assert (¬ Forall (λ c, is_white_space c = true) (lit " Q ")) as HQ.
  { intros HQ. apply Forall_cons in HQ as [_ HQ].
    apply Forall_cons in HQ as [HQ _]. vm_compute in HQ. discriminate HQ. }
  split; [|split; [exact HQ|]].
  - apply (blank_input_ignored (lit "  ") Scenario.fresh); [reflexivity|].
    repeat constructor.
  - intros E. apply HQ.
    by apply (blank_input_ignored (lit " Q ") Scenario.fresh).
Defined.


Lemma feedback_carries_live_history_witness :
  (showFeedback (lit "user_1_abc") Scenario.fresh).2 = None ∧
  ∃ m, (showFeedback (lit "user_1_abc") Scenario.answered).2 = Some m ∧
       modal_rating m = 5%Z ∧
       request_messages
         (submitFeedback [] m
            (addMessageToConversation (lit "user") (lit "more")
               Scenario.answered)) =
         [user_message (lit "Q"); assistant_message (lit "AB");
          user_message (lit "more")] ∧
       request_messages
         (submitFeedback [] m (clearConversation Scenario.answered).1) =
         [user_message (lit "Q"); assistant_message (lit "AB")].
Proof.
  split; [reflexivity|].
  pose proof (feedback_carries_live_history (lit "user_1_abc") []
                (lit "user") (lit "more") Scenario.answered wf_answered)
    as Hm.
  destruct (showFeedback (lit "user_1_abc") Scenario.answered).2 as [m|].
  - exists m. destruct Hm as (_ & _ & Hr & _ & _ & Hadd & Hclear).
    split; [reflexivity|]. split; [exact Hr|].
    rewrite Hadd, Hclear. vm_compute. split; reflexivity.
  - vm_compute in Hm. discriminate Hm.
Defined.

Lemma getUserId_stable_witness :
  getUserId (lit "1762669999999") (lit "zzzzzzzzz")
    (getUserId (lit "1762669782000") (lit "k3j9x0q1z") None).2 =
    (lit "user_1762669782000_k3j9x0q1z",
     Some (lit "user_1762669782000_k3j9x0q1z")) ∧
  (getUserId (lit "1762669999999") (lit "zzzzzzzzz")
     (Some (lit "user_1_abc"))).1 = lit "user_1_abc".
Proof.
  split.
  - destruct (getUserId_stable (lit "1762669782000") (lit "k3j9x0q1z")
                (lit "1762669999999") (lit "zzzzzzzzz") None) as (Hs & _).
    rewrite Hs. vm_compute. reflexivity.
  - destruct (getUserId_stable (lit "1762669999999") (lit "zzzzzzzzz")
                (lit "1762669999999") (lit "zzzzzzzzz")
                (Some (lit "user_1_abc"))) as (_ & _ & _ & Hu).
    apply Hu; [reflexivity|vm_compute; reflexivity].
Defined.

Lemma saved_conversations_most_recent_witness :
  getAllConversationsLocal
    (foldl (λ ls' c, saveConversation c ls') Sessions.two_stored
       Sessions.fifty_one) =
    take 50 (rev Sessions.fifty_one) ∧
  length (getAllConversationsLocal
            (foldl (λ ls' c, saveConversation c ls') Sessions.two_stored
               Sessions.fifty_one)) ≤ 50.
Proof.
  destruct (saved_conversations_most_recent Sessions.fifty_one
              Sessions.two_stored) as [Hall Hlen].
  - simpl. lia.
  - split; [|exact Hlen]. rewrite Hall. vm_compute. reflexivity.
Defined.

Lemma saved_conversation_is_found_witness :
  getConversationLocal [0%N]
    (saveConversation (Sessions.numbered 0 (JStr (lit "new")))
       Sessions.two_stored) =
    Some (Sessions.numbered 0 (JStr (lit "new"))) ∧
  getConversationLocal [1%N]
    (saveConversation (Sessions.numbered 0 (JStr (lit "new")))
       Sessions.two_stored) =
    getConversationLocal [1%N] Sessions.two_stored.
Proof.
  destruct (saved_conversation_is_found
              (Sessions.numbered 0 (JStr (lit "new"))) Sessions.two_stored)
    as [Hfound Hother].
  split; [exact Hfound|]. apply Hother.
  - discriminate.
  - simpl. lia.
Defined.

Lemma deleted_conversation_is_gone_witness :
  getConversationLocal [0%N]
    (deleteConversationLocal [0%N] Sessions.two_stored) = None ∧
  getConversationLocal [1%N]
    (deleteConversationLocal [0%N] Sessions.two_stored) =
    getConversationLocal [1%N] Sessions.two_stored.
Proof.
  destruct (deleted_conversation_is_gone [0%N] Sessions.two_stored)
    as (Hgone & Hother & _).
  split; [exact Hgone|]. apply Hother. discriminate.
Defined.


Lemma navigateTo_lands_on_a_page_witness :
  navigateTo (lit "stats") Sessions.on_chat =
    ({| currentPage := lit "stats"; appContainer := Rendered (lit "stats") |},
     Normal ()) ∧
  currentPage (navigateTo (lit "nowhere") Sessions.on_chat).1 = lit "chat" ∧
  navigateTo (lit "toString") Sessions.on_chat =
    ({| currentPage := lit "toString"; appContainer := NoElement |}, Throw).
Proof.
  split; [vm_compute; reflexivity|].
  split.
  - destruct (navigateTo_lands_on_a_page (lit "nowhere") Sessions.on_chat)
      as ((_ & _ & Hpage & _) & _).
    + apply (bool_decide_unpack _). vm_compute. exact I.
    + rewrite Hpage. vm_compute. reflexivity.
  - destruct (navigateTo_lands_on_a_page (lit "toString") Sessions.on_chat)
      as (_ & Hthrow & _).
    apply Hthrow. apply (bool_decide_unpack _). vm_compute. exact I.
Defined.

Lemma theme_toggle_alternates_witness :
  theme_toggle_click Sessions.blue_stored =
    {| data_theme := Some (lit "dark"); item_theme := Some (lit "dark");
       theme_icon_text := Sun |} ∧
  init_theme
    {| data_theme := None; item_theme := Some (lit "dark");
       theme_icon_text := Moon |} =
    theme_toggle_click Sessions.blue_stored.
Proof.
  split; [vm_compute; reflexivity|].
  destruct (theme_toggle_alternates Sessions.blue_stored)
    as (_ & _ & _ & _ & Hload).
  apply Hload. vm_compute. reflexivity.
Defined.

Lemma settings_toggle_sets_its_own_state_witness :
  shows_theme (settings_toggle (init_theme Sessions.light_document))
    (init_theme Sessions.light_document) ∧
  ¬ shows_theme false (theme_toggle_click Sessions.light_document) ∧
  data_theme
    (settings_toggle_click false
       (theme_toggle_click Sessions.light_document)).2 =
    data_theme (theme_toggle_click Sessions.light_document).
Proof.
  destruct (settings_toggle_sets_its_own_state false Sessions.light_document)
    as (_ & _ & Hrender & Hafter).
  split.
  - apply Hrender. apply (bool_decide_unpack _). vm_compute. exact I.
  - apply Hafter. vm_compute. reflexivity.
Defined.
